(** * Canvas Archiver: group resolution and Kanban section merge

    A shallow embedding of [src/main.ts] (class [CanvasArchiverPlugin]) and of
    the earlier revision of [findNodeGroup], followed by the properties the
    specification states about them.

    Modelling conventions.
    - A JavaScript string is the list of its UTF-16 code units ([JS.str]).
    - A number is an IEEE 754 double.  The coordinates of a canvas ([x],
      [y], [width], [height]) are integers, as the JSON Canvas format
      stores them; such a double is held as its integer value, and the sum
      and the product of the source round as doubles do ([JS.toDouble]).
    - An optional property ([text?], [color?], [label?]) is an [option];
      [None] is the JavaScript value [undefined].
    - A [Map] is an association list in insertion order.
    - A thrown exception is the [None] of the [option] monad. *)

From Stdlib Require Import String Ascii List ZArith NArith Bool Lia Permutation.
Import ListNotations.

Set Implicit Arguments.

(* ================================================================= *)
(** ** JavaScript primitives used by the plugin *)

Module JS.

(** A string, as the sequence of its UTF-16 code units. *)
Definition str : Type := list N.

(** A string literal of the source. *)
Definition lit (s : string) : str :=
  map N_of_ascii (list_ascii_of_string s).

(** The line feed ["\n"]. *)
Definition LF : N := 10%N.

Fixpoint str_eqb (a b : str) : bool :=
  match a, b with
  | [], [] => true
  | c :: a', d :: b' => (c =? d)%N && str_eqb a' b'
  | _, _ => false
  end.

(** A value that is a string or [undefined]. *)
Definition value : Type := option str.

(** [===] on such values. *)
Definition value_eqb (a b : value) : bool :=
  match a, b with
  | Some s, Some t => str_eqb s t
  | None, None => true
  | _, _ => false
  end.

(** String conversion of a template literal [`${v}`]. *)
Definition toStr (v : value) : str :=
  match v with
  | Some s => s
  | None => lit "undefined"
  end.

(** [s.startsWith(p)] *)
Fixpoint startsWith (p s : str) : bool :=
  match p, s with
  | [], _ => true
  | _ :: _, [] => false
  | c :: p', d :: s' => (c =? d)%N && startsWith p' s'
  end.

(** [s.substring(n)] *)
Definition substring (n : nat) (s : str) : str := skipn n s.

(** ECMAScript [WhiteSpace] and [LineTerminator] code points, the ones
    [trim] strips. *)
Definition isWhiteSpace (c : N) : bool :=
  ((9 <=? c) && (c <=? 13) || (c =? 32) || (c =? 160) || (c =? 5760)
   || (8192 <=? c) && (c <=? 8202) || (c =? 8232) || (c =? 8233)
   || (c =? 8239) || (c =? 8287) || (c =? 12288) || (c =? 65279))%N.

Fixpoint trimStart (s : str) : str :=
  match s with
  | [] => []
  | c :: r => if isWhiteSpace c then trimStart r else s
  end.

Definition trimEnd (s : str) : str := rev (trimStart (rev s)).

(** [s.trim()] *)
Definition trim (s : str) : str := trimEnd (trimStart s).

(** [s.split(sep)] for a separator of one code unit. *)
Fixpoint split (sep : N) (s : str) : list str :=
  match s with
  | [] => [[]]
  | c :: r =>
      if (c =? sep)%N then [] :: split sep r
      else match split sep r with
           | [] => [[c]]
           | l :: ls => (c :: l) :: ls
           end
  end.

(** [a.join(sep)] *)
Definition join (sep : str) (a : list str) : str :=
  match a with
  | [] => []
  | l :: ls => l ++ flat_map (fun e => sep ++ e) ls
  end.

(** [s.replace(/c/g, by)] for a pattern of one code unit. *)
Definition replaceAll (c : N) (by_ : str) (s : str) : str :=
  flat_map (fun d => if (d =? c)%N then by_ else [d]) s.

(** [a.splice(start, 0, ...items)] with [0 <= start]. *)
Definition splice (A : Type) (a : list A) (start : nat) (items : list A)
  : list A :=
  firstn start a ++ items ++ skipn start a.

(** *** Numbers

    The double nearest to an integer: an integer of magnitude up to [2^53]
    is a double; a larger one is rounded to 53 significant bits, to the
    nearest and on a tie to the even one; a result of [2^1024] or more is
    [Infinity], held as [2^1024], which is above every double. *)
Definition toDouble (z : Z) : Z :=
  let a := Z.abs z in
  if (a <=? 2 ^ 53)%Z then z
  else
    let shift := (Z.log2 a - 52)%Z in
    let q := Z.shiftr a shift in
    let r := Z.land a (Z.ones shift) in
    let half := Z.shiftl 1 (shift - 1) in
    let q' := if (half <? r)%Z || ((r =? half)%Z && Z.odd q)
              then (q + 1)%Z else q in
    let rounded := Z.shiftl q' shift in
    (Z.sgn z * (if (2 ^ 1024 <=? rounded)%Z then 2 ^ 1024 else rounded))%Z.

(** [a + b] on integer-valued doubles. *)
Definition numAdd (a b : Z) : Z := toDouble (a + b).

(** [a * b] on integer-valued doubles. *)
Definition numMul (a b : Z) : Z := toDouble (a * b).

(** *** [Map] with keys that are strings or [undefined] *)

Definition Map (V : Type) : Type := list (value * V).

Section MapOps.
Variable V : Type.

Definition keyIs (k : value) (kv : value * V) : bool :=
  value_eqb (fst kv) k.

Definition has (m : Map V) (k : value) : bool := existsb (keyIs k) m.

Definition get (m : Map V) (k : value) : option V :=
  option_map snd (find (keyIs k) m).

Definition set (m : Map V) (k : value) (v : V) : Map V :=
  if has m k
  then map (fun kv => if keyIs k kv then (fst kv, v) else kv) m
  else m ++ [(k, v)].

Definition delete (m : Map V) (k : value) : Map V :=
  filter (fun kv => negb (keyIs k kv)) m.

Definition keys (m : Map V) : list value := map fst m.
End MapOps.

(** An uninterpreted JSON value (the [any] and [unknown] of the source). *)
#[local] Unset Elimination Schemes.
Inductive Json : Type :=
| JNull
| JBool (b : bool)
| JNumber (n : Z)
| JString (s : str)
| JArray (a : list Json)
| JObject (o : list (str * Json)).
#[local] Set Elimination Schemes.

End JS.

Import JS.

(* ================================================================= *)
(** ** Data model *)

Record CanvasNode : Type := mkCanvasNode {
  id : str;
  type : str;
  x : Z;
  y : Z;
  width : Z;
  height : Z;
  text : value;
  color : value;
  label : value;
  styleAttributes : list (str * Json)
}.

Record CanvasData : Type := mkCanvasData {
  nodes : list CanvasNode;
  edges : list Json;
  metadata : list (str * Json)
}.

(* ================================================================= *)
(** ** Group resolution *)

Open Scope Z_scope.

(** [isNodeInGroup], main.ts lines 79-84. *)
Definition isNodeInGroup (node group : CanvasNode) : bool :=
  (x node >=? x group) &&
  (numAdd (x node) (width node) <=? numAdd (x group) (width group)) &&
  (y node >=? y group) &&
  (numAdd (y node) (height node) <=? numAdd (y group) (height group)).

(** The callback of [reduce] in [findNodeGroup], main.ts lines 96-100. *)
Definition smallerGroup (smallest current : CanvasNode) : CanvasNode :=
  let currentArea := numMul (width current) (height current) in
  let smallestArea := numMul (width smallest) (height smallest) in
  if currentArea <? smallestArea then current else smallest.

(** [findNodeGroup], main.ts lines 87-103.  [reduce] without an initial
    value starts from the first element. *)
Definition findNodeGroup (node : CanvasNode) (groups : list CanvasNode)
  : value :=
  let matchingGroups := filter (fun group => isNodeInGroup node group) groups in
  match matchingGroups with
  | [] => Some (lit "Uncategorized")
  | first :: rest =>
      let smallestGroup := fold_left smallerGroup rest first in
      label smallestGroup
  end.

(** The earlier revision of the same file. *)
Module Earlier.

(** [findNodeGroup] of the earlier revision: the first containing group. *)
Fixpoint findNodeGroup (node : CanvasNode) (groups : list CanvasNode)
  : value :=
  match groups with
  | [] => Some (lit "Uncategorized")
  | group :: rest =>
      if isNodeInGroup node group then label group
      else findNodeGroup node rest
  end.

End Earlier.

(* ================================================================= *)
(** ** Archiving: [archiveBlueCards], main.ts lines 105-224 *)

(** Sequencing of statements that may throw. *)
Notation "x <- e ;; k" :=
  (match e with Some x => k | None => None end)
  (at level 61, e at next level, right associativity).

(** The predicate of the filter at lines 110-112. *)
Definition isGroup (node : CanvasNode) : bool :=
  str_eqb (type node) (lit "group").

(** The predicate of the filters at lines 115-118 and 209-211. *)
Definition isBlueCard (node : CanvasNode) : bool :=
  str_eqb (type node) (lit "text") && value_eqb (color node) (Some (lit "6")).

(** The callback of [blueCards.forEach], lines 127-136.  [cards.push(card)]
    changes the array held by the map; the entry keeps its position. *)
Definition addCard (groupNodes : list CanvasNode)
  (groupedCards : Map (list CanvasNode)) (card : CanvasNode)
  : Map (list CanvasNode) :=
  let groupName := findNodeGroup card groupNodes in
  let groupedCards :=
    if negb (has groupedCards groupName)
    then set groupedCards groupName []
    else groupedCards in
  match get groupedCards groupName with
  | Some cards => set groupedCards groupName (cards ++ [card])
  | None => groupedCards
  end.

(** Lines 126-136: the resolver. *)
Definition resolve (blueCards groupNodes : list CanvasNode)
  : Map (list CanvasNode) :=
  fold_left (addCard groupNodes) blueCards [].

(** The header literal of lines 153, 154 and 159. *)
Definition HEADER : str :=
  lit "---" ++ [LF; LF] ++ lit "kanban-plugin: basic" ++ [LF; LF]
  ++ lit "---" ++ [LF; LF].

(** Lines 147-160: the content the section walk starts from.  [existing]
    is the content of the archive file, [None] when there is no file. *)
Definition initialContent (existing : option str) : str :=
  match existing with
  | Some existingContent =>
      if negb (startsWith HEADER existingContent)
      then HEADER ++ existingContent
      else existingContent
  | None => HEADER
  end.

(** The entry of a card, lines 180 and 195.  [card.text.replace] throws a
    [TypeError] when [text] is [undefined]. *)
Definition cardLine (card : CanvasNode) : option str :=
  match text card with
  | Some body => Some (lit "- [ ] " ++ replaceAll LF (lit "<br>") body)
  | None => None
  end.

(** [cards.map(cardLine)], stopping at the first throw. *)
Fixpoint cardLines (cards : list CanvasNode) : option (list str) :=
  match cards with
  | [] => Some []
  | card :: rest =>
      l <- cardLine card ;;
      ls <- cardLines rest ;;
      Some (l :: ls)
  end.

(** The variables the section walk of lines 163-189 reads and writes. *)
Record Walk : Type := mkWalk {
  contentLines : list str;
  groupedCards : Map (list CanvasNode);
  currentGroup : str;
  insertIndex : Z
}.

(** The callback of [contentLines.forEach], lines 168-189, at [index]. *)
Definition visitLine (st : Walk) (index : nat) : option Walk :=
  let line := nth index (contentLines st) [] in
  if startsWith (lit "## ") line then
    let currentGroup := trim (substring 3 line) in
    Some (mkWalk (contentLines st) (groupedCards st) currentGroup
            (if has (groupedCards st) (Some currentGroup)
             then Z.of_nat index else insertIndex st))
  else if startsWith (lit "## ") line
          || (Z.of_nat index =? Z.of_nat (length (contentLines st)) - 1) then
    if negb (insertIndex st =? -1)
       && has (groupedCards st) (Some (currentGroup st)) then
      match get (groupedCards st) (Some (currentGroup st)) with
      | Some cards =>
          newLines <- cardLines cards ;;
          Some (mkWalk
                  (splice (contentLines st) (Z.to_nat (insertIndex st + 1))
                     newLines)
                  (delete (groupedCards st) (Some (currentGroup st)))
                  [] (-1))
      | None => Some (mkWalk (contentLines st) (groupedCards st) [] (-1))
      end
    else Some (mkWalk (contentLines st) (groupedCards st) []
                 (insertIndex st))
  else Some st.

(** [Array.prototype.forEach]: the length is read once, before the first
    call; each call sees the array as the calls before it left it.  The
    array never shrinks, so no index is skipped. *)
Fixpoint forEachIndex (indices : list nat) (st : Walk) : option Walk :=
  match indices with
  | [] => Some st
  | index :: rest =>
      st' <- visitLine st index ;;
      forEachIndex rest st'
  end.

Definition walk (st : Walk) : option Walk :=
  forEachIndex (seq 0 (length (contentLines st))) st.

(** The element pushed at line 193. *)
Definition headingElement (group : value) : str :=
  [LF] ++ lit "## " ++ toStr group ++ [LF].

(** Lines 192-197: a new section for every group still in the map, in the
    order of the map.  A throw discards the lines pushed so far, since
    [contentLines] is local to the run. *)
Fixpoint appendGroups (contentLines : list str)
  (groupedCards : Map (list CanvasNode)) : option (list str) :=
  match groupedCards with
  | [] => Some contentLines
  | (group, cards) :: rest =>
      newLines <- cardLines cards ;;
      appendGroups (contentLines ++ [headingElement group] ++ newLines) rest
  end.

(** Lines 147-199: the section merger.  [entries] is the map
    [groupedCards] as lines 126-136 left it. *)
Definition merge (existing : option str) (entries : Map (list CanvasNode))
  : option str :=
  let kanbanContent := initialContent existing in
  st <- walk (mkWalk (split LF kanbanContent) entries [] (-1)) ;;
  finalLines <- appendGroups (contentLines st) (groupedCards st) ;;
  Some (join [LF] finalLines).

(** What one run of [archiveBlueCards] does.
    - [NoBlueCards]: the return of line 122; nothing is written.
    - [Failed]: an exception reached the [catch] of line 220 before
      anything was written.
    - [Archived]: the archive content written at line 203 or 205, the view
      data set at line 216 and the number of cards in the notice of
      line 218. *)
Inductive Outcome : Type :=
| NoBlueCards
| Failed
| Archived (kanbanContent : str) (updatedCanvasData : CanvasData)
    (count : nat).

(** [archiveBlueCards], lines 105-224, on the parsed view data.
    [hasParent] tells whether [canvasView.file.parent] is set; [existing]
    is the content of the archive file, [None] when there is none. *)
Definition archiveBlueCards (canvasData : CanvasData) (hasParent : bool)
  (existing : option str) : Outcome :=
  let groupNodes := filter isGroup (nodes canvasData) in
  let blueCards := filter isBlueCard (nodes canvasData) in
  if (length blueCards =? 0)%nat then NoBlueCards
  else
    let groupedCards := resolve blueCards groupNodes in
    if negb hasParent then Failed
    else
      match merge existing groupedCards with
      | None => Failed
      | Some kanbanContent =>
          let updatedNodes :=
            filter (fun node => negb (isBlueCard node)) (nodes canvasData) in
          let updatedCanvasData :=
            mkCanvasData updatedNodes (edges canvasData)
              (metadata canvasData) in
          Archived kanbanContent updatedCanvasData (length blueCards)
      end.

Unset Implicit Arguments.

(* ================================================================= *)
(** ** Definitions used to state the properties *)

(** A heading line, and the section name it carries (lines 169-170). *)
Definition isHeading (line : str) : bool := startsWith (lit "## ") line.

Definition headingName (line : str) : str := trim (substring 3 line).

(** The area compared by [smallerGroup]: the product as the source
    computes it. *)
Definition area (group : CanvasNode) : Z :=
  numMul (width group) (height group).

(** The values of a list in the order of their first occurrence. *)
Fixpoint firstOccurrences (l : list value) : list value :=
  match l with
  | [] => []
  | k :: r => k :: filter (fun k' => negb (value_eqb k' k)) (firstOccurrences r)
  end.

(** What the map of lines 126-136 holds once the cards [seen] have been
    added to it. *)
Definition Grouped (groupNodes seen : list CanvasNode)
  (m : Map (list CanvasNode)) : Prop :=
  keys m = firstOccurrences (map (fun c => findNodeGroup c groupNodes) seen)
  /\ (forall k cs, In (k, cs) m ->
        cs = filter (fun c => value_eqb (findNodeGroup c groupNodes) k) seen
        /\ cs <> [])
  /\ Permutation (concat (map snd m)) seen.

(** The six lines of [HEADER]; its last line break opens the line that the
    rest of the document continues. *)
Definition headerLines : list str :=
  [lit "---"; []; lit "kanban-plugin: basic"; []; lit "---"; []].

(** The text that [join] gives to the elements pushed after the first. *)
Definition joined (elements : list str) : str :=
  flat_map (fun e => [LF] ++ e) elements.

(** The state of the section walk between two lines: the name of the last
    heading seen and the index of the last heading whose name is a key of
    the map (lines 169-173, read as a function of the lines seen so far). *)
Definition trackHeading (m : Map (list CanvasNode)) (ci : str * Z)
  (index : nat) (line : str) : str * Z :=
  if isHeading line
  then (headingName line,
        if has m (Some (headingName line)) then Z.of_nat index else snd ci)
  else ci.

Fixpoint scan (m : Map (list CanvasNode)) (lines : list str) (index : nat)
  (ci : str * Z) : str * Z :=
  match lines with
  | [] => ci
  | line :: rest => scan m rest (S index) (trackHeading m ci index line)
  end.

(** What the walk knows after the lines [seen]: [insertIndex] is [-1] or
    the index of a heading line, and when the name of the last heading is a
    key of the map, that index is the index of the last heading. *)
Definition Tracked (m : Map (list CanvasNode)) (seen : list str)
  (ci : str * Z) : Prop :=
  snd ci = -1 \/
  exists A h B,
    seen = A ++ h :: B /\ snd ci = Z.of_nat (length A) /\
    isHeading h = true /\
    (has m (Some (fst ci)) = true ->
     headingName h = fst ci /\ Forall (fun l => isHeading l = false) B).

(** The elements pushed by lines 192-197, for a whole map. *)
Fixpoint newSections (m : Map (list CanvasNode)) : option (list str) :=
  match m with
  | [] => Some []
  | (group, cards) :: rest =>
      newLines <- cardLines cards ;;
      more <- newSections rest ;;
      Some (headingElement group :: newLines ++ more)
  end.

(** *** Sample data *)

Definition sampleNode (type_ : string) (x_ y_ w h : Z) (text_ color_ label_ : value)
  : CanvasNode :=
  mkCanvasNode [] (lit type_) x_ y_ w h text_ color_ label_ [].

Definition blueCard (x_ y_ : Z) (body : str) : CanvasNode :=
  sampleNode "text" x_ y_ 5 5 (Some body) (Some (lit "6")) None.

Definition groupBox (name : string) (x_ y_ w h : Z) : CanvasNode :=
  sampleNode "group" x_ y_ w h None None (Some (lit name)).

(** A card inside a small group that lies inside a large one. *)
Definition nestedCard : CanvasNode := blueCard 10 10 (lit "a").

Definition nestedGroups : list CanvasNode :=
  [groupBox "Outer" 0 0 100 100; groupBox "Inner" 5 5 20 20].

(** Two groups side by side; [nestedCard] lies in the first only. *)
Definition apartGroups : list CanvasNode :=
  [groupBox "Backlog" 0 0 100 100; groupBox "Done" 200 0 100 100].

(** The two-line body of the specification's example. *)
Definition twoLineBody : str := lit "line1" ++ [LF] ++ lit "line2".

(** The text of the archive file before the run; empty when there is no
    file. *)
Definition document (existing : option str) : str :=
  match existing with
  | Some existingContent => existingContent
  | None => []
  end.

(** A card with the entry text [new]. *)
Definition newCard : CanvasNode := blueCard 0 0 (lit "new").

(** The canvas of the specification's end-to-end scenario. *)
Definition backlogCanvas : CanvasData :=
  mkCanvasData
    [groupBox "Backlog" 0 0 100 100;
     blueCard 10 10 (lit "one"); blueCard 200 200 (lit "two")]
    [] [].

(** A canvas with one blue card inside the group [A]. *)
Definition cardInA : CanvasData :=
  mkCanvasData [groupBox "A" 0 0 100 100; blueCard 10 10 (lit "new")] [] [].

(** A board with two sections, as the Kanban plugin stores it. *)
Definition twoSections : str :=
  HEADER ++ lit "## A" ++ [LF] ++ lit "- [ ] x" ++ [LF]
  ++ lit "## B" ++ [LF] ++ lit "- [ ] y" ++ [LF].

(** The document of the specification's example. *)
Definition todoDocument : str :=
  lit "## Todo" ++ [LF] ++ lit "- [ ] existing" ++ [LF].

(* ================================================================= *)
(** ** The earlier revision of [archiveBlueCards] *)

Module EarlierArchive.

(** [s.includes(p)] *)
Fixpoint includes (s p : str) : bool :=
  startsWith p s
  || match s with
     | [] => false
     | _ :: r => includes r p
     end.

(** The callback of [blueCards.forEach], lines 118-127 of the earlier
    revision: the one of the current revision, on the earlier
    [findNodeGroup]. *)
Definition addCard (groupNodes : list CanvasNode)
  (groupedCards : Map (list CanvasNode)) (card : CanvasNode)
  : Map (list CanvasNode) :=
  let groupName := Earlier.findNodeGroup card groupNodes in
  let groupedCards :=
    if negb (has groupedCards groupName)
    then set groupedCards groupName []
    else groupedCards in
  match get groupedCards groupName with
  | Some cards => set groupedCards groupName (cards ++ [card])
  | None => groupedCards
  end.

(** Lines 117-127. *)
Definition resolve (blueCards groupNodes : list CanvasNode)
  : Map (list CanvasNode) :=
  fold_left (addCard groupNodes) blueCards [].

(** The heading searched for at line 156. *)
Definition headingText (group : value) : str :=
  lit "## " ++ toStr group ++ [LF].

(** Lines 156-158: the heading is added when the content does not hold
    it. *)
Definition withHeading (kanbanContent : str) (group : value) : str :=
  if negb (includes kanbanContent (headingText group))
  then kanbanContent ++ [LF] ++ lit "## " ++ toStr group ++ [LF; LF]
  else kanbanContent.

(** Line 160, for one card. *)
Definition appendCard (kanbanContent : str) (card : CanvasNode)
  : option str :=
  match text card with
  | Some body =>
      Some (kanbanContent ++ lit "- [ ] " ++ replaceAll LF (lit "<br>") body
            ++ [LF])
  | None => None
  end.

(** Lines 159-161. *)
Fixpoint appendCards (kanbanContent : str) (cards : list CanvasNode)
  : option str :=
  match cards with
  | [] => Some kanbanContent
  | card :: rest =>
      kanbanContent' <- appendCard kanbanContent card ;;
      appendCards kanbanContent' rest
  end.

(** Lines 154-162. *)
Fixpoint appendGroups (kanbanContent : str)
  (groupedCards : Map (list CanvasNode)) : option str :=
  match groupedCards with
  | [] => Some kanbanContent
  | (group, cards) :: rest =>
      kanbanContent' <- appendCards (withHeading kanbanContent group) cards ;;
      appendGroups kanbanContent' rest
  end.

(** Lines 138-162: the merge of the earlier revision. *)
Definition merge (existing : option str) (entries : Map (list CanvasNode))
  : option str :=
  appendGroups (initialContent existing) entries.

(** [archiveBlueCards] of the earlier revision, lines 96-187. *)
Definition archiveBlueCards (canvasData : CanvasData) (hasParent : bool)
  (existing : option str) : Outcome :=
  let groupNodes := filter isGroup (nodes canvasData) in
  let blueCards := filter isBlueCard (nodes canvasData) in
  if (length blueCards =? 0)%nat then NoBlueCards
  else
    let groupedCards := resolve blueCards groupNodes in
    if negb hasParent then Failed
    else
      match merge existing groupedCards with
      | None => Failed
      | Some kanbanContent =>
          let updatedNodes :=
            filter (fun node => negb (isBlueCard node)) (nodes canvasData) in
          let updatedCanvasData :=
            mkCanvasData updatedNodes (edges canvasData)
              (metadata canvasData) in
          Archived kanbanContent updatedCanvasData (length blueCards)
      end.

End EarlierArchive.

(** The body shared by the two revisions of the [forEach] callback that
    builds the map, for a group name already found. *)
Definition pushCard (groupName : value)
  (groupedCards : Map (list CanvasNode)) (card : CanvasNode)
  : Map (list CanvasNode) :=
  let groupedCards :=
    if negb (has groupedCards groupName)
    then set groupedCards groupName []
    else groupedCards in
  match get groupedCards groupName with
  | Some cards => set groupedCards groupName (cards ++ [card])
  | None => groupedCards
  end.

(** A string that does not begin with white space. *)
Definition noLead (s : str) : Prop :=
  match s with
  | [] => True
  | c :: _ => isWhiteSpace c = false
  end.

(** *** More sample data *)

(** Two groups whose exact areas differ by one and whose areas as doubles
    are equal: [94906267 * 94906267 = 9007199515875289] rounds to
    [9007199515875288 = 8 * 1125899939484411]. *)
Definition squareGroup : CanvasNode :=
  groupBox "Square" 0 0 94906267 94906267.

Definition stripGroup : CanvasNode :=
  groupBox "Strip" 0 0 8 1125899939484411.

(** A label of two lines. *)
Definition twoLineLabel : str := lit "A" ++ [LF] ++ lit "B".

(** A board whose only section has a heading that reads [## undefined]. *)
Definition undefinedSection : str :=
  HEADER ++ lit "## undefined" ++ [LF] ++ lit "- [ ] x" ++ [LF].

(** A canvas with a group that has no label around a blue card. *)
Definition unlabelledCanvas : CanvasData :=
  mkCanvasData
    [sampleNode "group" 0 0 100 100 None None None;
     blueCard 10 10 (lit "new")]
    [] [].

(* ================================================================= *)
(** ** Strings, lines and maps *)

#[local] Arguments lit : simpl never.
#[local] Arguments HEADER : simpl never.

Section Primitives.

Lemma str_eqb_eq (a b : str) : str_eqb a b = true <-> a = b.
Proof.
  revert b; induction a as [|c a IH]; intros [|d b]; simpl;
    try (split; (discriminate || reflexivity)).
  rewrite andb_true_iff, N.eqb_eq, IH.
  split; [intros [-> ->]; reflexivity | intros E; injection E; auto].
Qed.

Lemma value_eqb_eq (a b : value) : value_eqb a b = true <-> a = b.
Proof.
  destruct a as [s|], b as [t|]; simpl;
    try (split; (discriminate || reflexivity)).
  rewrite str_eqb_eq. split; [intros ->; reflexivity | congruence].
Qed.

Lemma value_eqb_refl (a : value) : value_eqb a a = true.
Proof. apply value_eqb_eq; reflexivity. Qed.

Lemma value_eqb_neq (a b : value) : value_eqb a b = false <-> a <> b.
Proof.
  rewrite <- value_eqb_eq. destruct (value_eqb a b); split; congruence.
Qed.

Lemma value_eqb_sym (a b : value) : value_eqb a b = value_eqb b a.
Proof.
  destruct (value_eqb b a) eqn:E.
  - apply value_eqb_eq in E; subst; apply value_eqb_refl.
  - apply value_eqb_neq. apply value_eqb_neq in E. congruence.
Qed.

Lemma startsWith_app (p r : str) : startsWith p (p ++ r) = true.
Proof.
  induction p as [|c p IH]; simpl; [reflexivity|].
  rewrite N.eqb_refl; exact IH.
Qed.

Lemma startsWith_inv (p s : str) :
  startsWith p s = true -> exists r, s = p ++ r.
Proof.
  revert s; induction p as [|c p IH]; intros s H; simpl in *.
  - exists s; reflexivity.
  - destruct s as [|d s]; [discriminate|].
    apply andb_true_iff in H as [E H]. apply N.eqb_eq in E; subst d.
    destruct (IH _ H) as [r ->]. exists r; reflexivity.
Qed.

Lemma split_not_nil (c : N) (s : str) : split c s <> [].
Proof.
  destruct s as [|d r]; simpl; [discriminate|].
  destruct (d =? c)%N; [discriminate|].
  destruct (split c r); discriminate.
Qed.

(** Joining the lines of a text gives the text back. *)
Lemma join_split (c : N) (s : str) : join [c] (split c s) = s.
Proof.
  induction s as [|d r IH]; simpl; [reflexivity|].
  destruct (d =? c)%N eqn:E.
  - apply N.eqb_eq in E; subst d. simpl.
    destruct (split c r) as [|l ls] eqn:S; [now destruct (split_not_nil _ _ S)|].
    simpl in *. now rewrite IH.
  - destruct (split c r) as [|l ls] eqn:S; [now destruct (split_not_nil _ _ S)|].
    simpl in *. now rewrite IH.
Qed.

Lemma split_no_sep (c : N) (s : str) : ~ In c s -> split c s = [s].
Proof.
  induction s as [|d r IH]; simpl; intros H; [reflexivity|].
  destruct (d =? c)%N eqn:E.
  - apply N.eqb_eq in E. tauto.
  - rewrite IH; tauto.
Qed.

(** Replacing a code unit is joining the pieces between its occurrences. *)
Lemma replaceAll_join (c : N) (by_ s : str) :
  replaceAll c by_ s = join by_ (split c s).
Proof.
  unfold replaceAll.
  induction s as [|d r IH]; simpl; [reflexivity|].
  destruct (d =? c)%N eqn:E.
  - rewrite IH.
    destruct (split c r) as [|l ls] eqn:S; [now destruct (split_not_nil _ _ S)|].
    simpl. now rewrite ?app_assoc.
  - rewrite IH.
    destruct (split c r) as [|l ls] eqn:S; [now destruct (split_not_nil _ _ S)|].
    reflexivity.
Qed.

Lemma replaceAll_no_sep (c : N) (by_ s : str) :
  ~ In c by_ -> ~ In c (replaceAll c by_ s).
Proof.
  unfold replaceAll. intros Hby H. apply in_flat_map in H as [d [_ H]].
  destruct (d =? c)%N eqn:E; [tauto|].
  destruct H as [->|[]]. now rewrite N.eqb_refl in E.
Qed.

Lemma join_app (sep : str) (a b : list str) :
  a <> [] -> join sep (a ++ b) = join sep a ++ flat_map (fun e => sep ++ e) b.
Proof.
  destruct a as [|l ls]; [congruence|]. intros _. simpl.
  now rewrite flat_map_app, app_assoc.
Qed.

End Primitives.

(* ================================================================= *)
(** ** Group resolution: containment and the choice among groups *)

Section Resolution.

Variable node : CanvasNode.

Lemma isNodeInGroup_iff (group : CanvasNode) :
  isNodeInGroup node group = true <->
  x group <= x node /\
  numAdd (x node) (width node) <= numAdd (x group) (width group) /\
  y group <= y node /\
  numAdd (y node) (height node) <= numAdd (y group) (height group).
Proof.
  unfold isNodeInGroup.
  rewrite !andb_true_iff, !Z.geb_le, !Z.leb_le. tauto.
Qed.

(** [reduce] with [smallerGroup] returns the first element of least area. *)
Lemma reduce_smallerGroup (rest : list CanvasNode) (first : CanvasNode) :
  exists before after,
    first :: rest = before ++ fold_left smallerGroup rest first :: after /\
    (forall h, In h (first :: rest) ->
               area (fold_left smallerGroup rest first) <= area h) /\
    (forall h, In h before ->
               area (fold_left smallerGroup rest first) < area h).
Proof.
  induction rest as [|c rest IH] using rev_ind.
  - exists [], []. simpl. repeat split.
    + intros h [<-|[]]; lia.
    + intros h [].
  - destruct IH as (before & after & E & Hall & Hbefore).
    rewrite fold_left_app. cbn [fold_left].
    set (r := fold_left smallerGroup rest first) in *.
    unfold smallerGroup. fold (area c) (area r).
    destruct (area c <? area r) eqn:C.
    + apply Z.ltb_lt in C.
      exists (first :: rest), []. repeat split.
      * intros h Hh. change (first :: rest ++ [c]) with ((first :: rest) ++ [c]) in Hh.
        apply in_app_or in Hh as [Hh|[<-|[]]]; [|lia].
        specialize (Hall h Hh). lia.
      * intros h Hh. specialize (Hall h Hh). lia.
    + apply Z.ltb_ge in C.
      exists before, (after ++ [c]). repeat split.
      * change (first :: rest ++ [c]) with ((first :: rest) ++ [c]).
        rewrite E, <- app_assoc. reflexivity.
      * intros h Hh. change (first :: rest ++ [c]) with ((first :: rest) ++ [c]) in Hh.
        apply in_app_or in Hh as [Hh|[<-|[]]]; [|lia].
        exact (Hall h Hh).
      * exact Hbefore.
Qed.

(** An element of a filtered list, found back in the list itself. *)
Lemma filter_split {A : Type} (f : A -> bool) (l a b : list A) (g : A) :
  filter f l = a ++ g :: b ->
  exists a' b', l = a' ++ g :: b' /\ filter f a' = a /\ filter f b' = b
                /\ f g = true.
Proof.
  revert a. induction l as [|e l IH]; intros a H; simpl in H.
  - destruct a; discriminate.
  - destruct (f e) eqn:F.
    + destruct a as [|e' a]; simpl in H; injection H as -> H.
      * exists [], l. repeat split; assumption.
      * destruct (IH _ H) as (a' & b' & -> & Ha & Hb & Fg).
        exists (e' :: a'), b'. simpl. rewrite F, Ha. repeat split; assumption.
    + destruct (IH _ H) as (a' & b' & -> & Ha & Hb & Fg).
      exists (e :: a'), b'. simpl. rewrite F. repeat split; assumption.
Qed.

(** The group [findNodeGroup] answers with: the first of the containing
    groups of least area. *)
Lemma findNodeGroup_first_smallest (groups : list CanvasNode) :
  filter (isNodeInGroup node) groups <> [] ->
  exists before g after,
    groups = before ++ g :: after /\
    isNodeInGroup node g = true /\
    findNodeGroup node groups = label g /\
    (forall h, In h groups -> isNodeInGroup node h = true ->
               area g <= area h) /\
    (forall h, In h before -> isNodeInGroup node h = true ->
               area g < area h).
Proof.
  intros Hne. unfold findNodeGroup.
  change (fun group => isNodeInGroup node group) with (isNodeInGroup node).
  destruct (filter (isNodeInGroup node) groups) as [|first rest] eqn:F; [congruence|].
  destruct (reduce_smallerGroup rest first) as (a & b & E & Hall & Hbefore).
  set (g := fold_left smallerGroup rest first) in *.
  rewrite <- F in Hall. rewrite E in F.
  destruct (filter_split _ _ _ _ _ F) as (a' & b' & -> & Ha & Hb & Fg).
  exists a', g, b'. repeat split; try assumption.
  - intros h Hh Hin. apply Hall. apply filter_In. split; assumption.
  - intros h Hh Hin. apply Hbefore. rewrite <- Ha.
    apply filter_In. split; assumption.
Qed.

Lemma findNodeGroup_none (groups : list CanvasNode) :
  filter (isNodeInGroup node) groups = [] ->
  findNodeGroup node groups = Some (lit "Uncategorized").
Proof. unfold findNodeGroup. intros H.
  change (fun group => isNodeInGroup node group) with (isNodeInGroup node).
  now rewrite H. Qed.

(** The earlier revision answers with the first containing group. *)
Lemma earlier_first_match (groups : list CanvasNode) :
  Earlier.findNodeGroup node groups =
  match filter (isNodeInGroup node) groups with
  | [] => Some (lit "Uncategorized")
  | g :: _ => label g
  end.
Proof.
  induction groups as [|g groups IH]; simpl; [reflexivity|].
  destruct (isNodeInGroup node g); [reflexivity|exact IH].
Qed.

End Resolution.

(** C6. The containment test is inclusive on all four boundaries: a
    candidate whose left, right, top and bottom edges coincide with those of
    the group is contained. *)
Theorem isNodeInGroup_inclusive (node group : CanvasNode) :
  x node = x group ->
  x node + width node = x group + width group ->
  y node = y group ->
  y node + height node = y group + height group ->
  isNodeInGroup node group = true.
Proof.
  intros Hx Hr Hy Hb. apply isNodeInGroup_iff. unfold numAdd.
  rewrite Hr, Hb. lia.
Qed.

Lemma isNodeInGroup_inclusive_witness :
  isNodeInGroup (blueCard 10 20 (lit "a"))
    (groupBox "Backlog" 10 20 5 5) = true.
Proof.
  apply (isNodeInGroup_inclusive (blueCard 10 20 (lit "a"))
           (groupBox "Backlog" 10 20 5 5)); reflexivity.
Defined.

(** C2. A candidate contained in two or more groups is assigned to a
    containing group of least area; among containing groups of equal least
    area the first of the input list wins; and when the containing groups
    of least area agree on the label, the answer is the same for every
    order of the group list.  The area of a group is the number the source
    compares, the double [width * height] ([area], [JS.numMul]); so are the
    edges of the containment test ([JS.numAdd]). *)
Theorem findNodeGroup_smallest_area (node : CanvasNode)
  (groups : list CanvasNode) :
  (2 <= length (filter (isNodeInGroup node) groups))%nat ->
  exists before g after,
    groups = before ++ g :: after /\
    isNodeInGroup node g = true /\
    findNodeGroup node groups = label g /\
    (forall h, In h groups -> isNodeInGroup node h = true ->
               area g <= area h) /\
    (forall h, In h before -> isNodeInGroup node h = true ->
               area g < area h) /\
    (forall groups',
        Permutation groups groups' ->
        (forall h, In h groups -> isNodeInGroup node h = true ->
                   area h = area g -> label h = label g) ->
        findNodeGroup node groups' = label g).
Proof.
  intros Hlen.
  assert (Hne : filter (isNodeInGroup node) groups <> []).
  { intros E. rewrite E in Hlen. simpl in Hlen. lia. }
  destruct (findNodeGroup_first_smallest node groups Hne)
    as (before & g & after & E & Hg & Hfind & Hall & Hbefore).
  exists before, g, after. repeat split; try assumption.
  intros groups' Hperm Hlabel.
  assert (Hing : In g groups) by (rewrite E; apply in_elt).
  assert (Hne' : filter (isNodeInGroup node) groups' <> []).
  { intros E'. assert (In g (filter (isNodeInGroup node) groups')) as Hin.
    { apply filter_In. split; [|assumption].
      eapply Permutation_in; eassumption. }
    rewrite E' in Hin. exact Hin. }
  destruct (findNodeGroup_first_smallest node groups' Hne')
    as (before' & g' & after' & E' & Hg' & Hfind' & Hall' & _).
  rewrite Hfind'.
  assert (Hing' : In g' groups).
  { eapply Permutation_in; [apply Permutation_sym; eassumption|].
    rewrite E'. apply in_elt. }
  apply Hlabel; try assumption.
  apply Z.le_antisymm.
  - apply Hall'; [eapply Permutation_in; eassumption|assumption].
  - apply Hall; assumption.
Qed.

(** C10. When at most one group contains the node, the earlier revision
    (first containing group) and the current one (containing group of least
    area) answer alike: the label of the containing group, or
    ["Uncategorized"] when there is none. *)
Theorem findNodeGroup_revisions_agree (node : CanvasNode)
  (groups : list CanvasNode) :
  (length (filter (isNodeInGroup node) groups) <= 1)%nat ->
  Earlier.findNodeGroup node groups = findNodeGroup node groups /\
  findNodeGroup node groups =
    match filter (isNodeInGroup node) groups with
    | [] => Some (lit "Uncategorized")
    | g :: _ => label g
    end.
Proof.
  intros Hlen. rewrite earlier_first_match. unfold findNodeGroup.
  change (fun group => isNodeInGroup node group) with (isNodeInGroup node).
  destruct (filter (isNodeInGroup node) groups) as [|g [|g' rest]];
    simpl in *; [split; reflexivity | split; reflexivity | lia].
Qed.

Lemma findNodeGroup_smallest_area_witness :
  (2 <= length (filter (isNodeInGroup nestedCard) nestedGroups))%nat /\
  exists before g after,
    nestedGroups = before ++ g :: after /\
    isNodeInGroup nestedCard g = true /\
    findNodeGroup nestedCard nestedGroups = label g /\
    (forall h, In h nestedGroups -> isNodeInGroup nestedCard h = true ->
               area g <= area h) /\
    (forall h, In h before -> isNodeInGroup nestedCard h = true ->
               area g < area h) /\
    (forall groups',
        Permutation nestedGroups groups' ->
        (forall h, In h nestedGroups -> isNodeInGroup nestedCard h = true ->
                   area h = area g -> label h = label g) ->
        findNodeGroup nestedCard groups' = label g).
Proof.
  assert (H : (2 <= length (filter (isNodeInGroup nestedCard) nestedGroups))%nat)
    by (vm_compute; lia).
  split; [exact H|].
  exact (findNodeGroup_smallest_area nestedCard nestedGroups H).
Defined.

Lemma findNodeGroup_revisions_agree_witness :
  (length (filter (isNodeInGroup nestedCard) apartGroups) <= 1)%nat /\
  Earlier.findNodeGroup nestedCard apartGroups = findNodeGroup nestedCard apartGroups /\
  findNodeGroup nestedCard apartGroups =
    match filter (isNodeInGroup nestedCard) apartGroups with
    | [] => Some (lit "Uncategorized")
    | g :: _ => label g
    end.
Proof.
  assert (H : (length (filter (isNodeInGroup nestedCard) apartGroups) <= 1)%nat)
    by (vm_compute; lia).
  split; [exact H|].
  exact (findNodeGroup_revisions_agree nestedCard apartGroups H).
Defined.

(** The area is the exact product as long as that is at most [2^53]. *)
Lemma area_exact (group : CanvasNode) :
  Z.abs (width group * height group) <= 2 ^ 53 ->
  area group = width group * height group.
Proof.
  intros H. unfold area, numMul, toDouble. apply Z.leb_le in H.
  now rewrite H.
Qed.

(** Areas are compared as the doubles the source computes: two groups
    whose areas round to the same double tie, and the first one wins. *)
Example findNodeGroup_tie_as_doubles :
  findNodeGroup (blueCard 0 0 (lit "a")) [squareGroup; stripGroup]
  = Some (lit "Square") /\
  findNodeGroup (blueCard 0 0 (lit "a")) [stripGroup; squareGroup]
  = Some (lit "Strip") /\
  area squareGroup = area stripGroup.
Proof. repeat split; vm_compute; reflexivity. Qed.

(** Edges are compared as the doubles the source computes: beyond [2^53]
    the right edges [2^53 - 1 + 2] and [2^53 - 1 + 1] are the same double. *)
Example isNodeInGroup_rounds_edges :
  isNodeInGroup
    (sampleNode "text" (2 ^ 53 - 1) 0 2 1 None None None)
    (sampleNode "group" (2 ^ 53 - 1) 0 1 1 None None None) = true.
Proof. vm_compute. reflexivity. Qed.

(** With two containing groups the two revisions can disagree. *)
Example revisions_differ_when_nested :
  Earlier.findNodeGroup nestedCard nestedGroups = Some (lit "Outer") /\
  findNodeGroup nestedCard nestedGroups = Some (lit "Inner").
Proof. split; reflexivity. Qed.

(* ================================================================= *)
(** ** Entry lines *)

Lemma lit_entry_prefix_no_LF : ~ In LF (lit "- [ ] ").
Proof. vm_compute. intuition discriminate. Qed.

Lemma lit_br_no_LF : ~ In LF (lit "<br>").
Proof. vm_compute. intuition discriminate. Qed.

(** C7. The entry of a card with body text [body] is ["- [ ] "] followed by
    the lines of [body] joined by ["<br>"]; it holds no line feed, so it is
    one line of the output. *)
Theorem cardLine_single_line (card : CanvasNode) (body : str) :
  text card = Some body ->
  exists entry,
    cardLine card = Some entry /\
    entry = lit "- [ ] " ++ join (lit "<br>") (split LF body) /\
    ~ In LF entry /\
    split LF entry = [entry].
Proof.
  intros Htext. unfold cardLine. rewrite Htext.
  eexists. split; [reflexivity|].
  assert (Hno : ~ In LF (lit "- [ ] " ++ replaceAll LF (lit "<br>") body)).
  { intros H. apply in_app_or in H as [H|H].
    - exact (lit_entry_prefix_no_LF H).
    - exact (replaceAll_no_sep LF (lit "<br>") body lit_br_no_LF H). }
  repeat split.
  - now rewrite replaceAll_join.
  - exact Hno.
  - apply split_no_sep, Hno.
Qed.

Lemma cardLine_single_line_witness :
  text (blueCard 0 0 twoLineBody) = Some twoLineBody /\
  cardLine (blueCard 0 0 twoLineBody) = Some (lit "- [ ] line1<br>line2") /\
  exists entry,
    cardLine (blueCard 0 0 twoLineBody) = Some entry /\
    entry = lit "- [ ] " ++ join (lit "<br>") (split LF twoLineBody) /\
    ~ In LF entry /\
    split LF entry = [entry].
Proof.
  split; [reflexivity|]. split; [reflexivity|].
  exact (cardLine_single_line (blueCard 0 0 twoLineBody) twoLineBody eq_refl).
Defined.

(* ================================================================= *)
(** ** The map of grouped cards *)

Section MapFacts.

Context {V : Type}.
Implicit Types (m : Map V) (k : value).

Lemma has_In m k : has m k = true <-> In k (keys m).
Proof.
  unfold has, keys, keyIs. rewrite existsb_exists, in_map_iff. split.
  - intros [kv [Hin E]]. apply value_eqb_eq in E. exists kv; auto.
  - intros [kv [E Hin]]. exists kv. split; [assumption|].
    apply value_eqb_eq; assumption.
Qed.

Lemma has_false m k : has m k = false <-> ~ In k (keys m).
Proof. rewrite <- has_In. destruct (has m k); split; congruence. Qed.

Lemma has_app m1 m2 k : has (m1 ++ m2) k = has m1 k || has m2 k.
Proof. unfold has. apply existsb_app. Qed.

Lemma get_middle m1 m2 k (v : V) :
  ~ In k (keys m1) -> get (m1 ++ (k, v) :: m2) k = Some v.
Proof.
  unfold get. induction m1 as [|[k' v'] m1 IH]; simpl; intros H.
  - unfold keyIs. simpl. now rewrite value_eqb_refl.
  - unfold keyIs at 1. simpl.
    destruct (value_eqb k' k) eqn:E.
    + apply value_eqb_eq in E. tauto.
    + apply IH. tauto.
Qed.

Lemma get_skip m1 m2 k k' (v : V) :
  k <> k' -> get (m1 ++ (k', v) :: m2) k = get (m1 ++ m2) k.
Proof.
  intros Hne. unfold get. induction m1 as [|[k0 v0] m1 IH]; simpl.
  - unfold keyIs at 1. simpl.
    destruct (value_eqb k' k) eqn:E; [|reflexivity].
    apply value_eqb_eq in E. congruence.
  - destruct (keyIs k (k0, v0)); [reflexivity|exact IH].
Qed.

Lemma has_skip m1 m2 k k' (v : V) :
  k <> k' -> has (m1 ++ (k', v) :: m2) k = has (m1 ++ m2) k.
Proof.
  intros Hne. rewrite !has_app. f_equal. unfold has. simpl.
  unfold keyIs at 1. simpl.
  destruct (value_eqb k' k) eqn:E; [|reflexivity].
  apply value_eqb_eq in E. congruence.
Qed.

Lemma delete_skip m1 m2 k k' (v : V) :
  k <> k' ->
  delete (m1 ++ (k', v) :: m2) k = delete m1 k ++ (k', v) :: delete m2 k.
Proof.
  intros Hne. unfold delete. rewrite filter_app. simpl.
  unfold keyIs at 2. simpl.
  destruct (value_eqb k' k) eqn:E; [|reflexivity].
  apply value_eqb_eq in E. congruence.
Qed.

Lemma delete_app m1 m2 k : delete (m1 ++ m2) k = delete m1 k ++ delete m2 k.
Proof. apply filter_app. Qed.

Lemma get_has m k : has m k = true -> exists v, get m k = Some v.
Proof.
  unfold has, get. induction m as [|kv m IH]; simpl; [discriminate|].
  destruct (keyIs k kv); simpl; [intros _; eexists; reflexivity|exact IH].
Qed.

Lemma get_In m k (v : V) : get m k = Some v -> In (k, v) m.
Proof.
  unfold get. induction m as [|[k' v'] m IH]; simpl; [discriminate|].
  unfold keyIs at 1. simpl. destruct (value_eqb k' k) eqn:E; simpl.
  - apply value_eqb_eq in E. intros [= ->]. left; congruence.
  - intros H. right; exact (IH H).
Qed.

Lemma In_delete m k k' (v : V) : In (k', v) (delete m k) -> In (k', v) m.
Proof. unfold delete. intros H. apply filter_In in H. tauto. Qed.

(** A key of the map, with the entries before and after it. *)
Lemma has_split m k :
  has m k = true ->
  exists m1 v m2, m = m1 ++ (k, v) :: m2 /\ ~ In k (keys m1).
Proof.
  induction m as [|[k' v'] m IH]; simpl; [discriminate|].
  unfold keyIs at 1. simpl. destruct (value_eqb k' k) eqn:E; simpl.
  - apply value_eqb_eq in E; subst k'. intros _.
    exists [], v', m. split; [reflexivity|intros []].
  - intros H. destruct (IH H) as (m1 & v & m2 & -> & Hnot).
    exists ((k', v') :: m1), v, m2. split; [reflexivity|].
    simpl. intros [->|Hin]; [|tauto].
    now rewrite value_eqb_refl in E.
Qed.

Lemma set_middle m1 m2 k (v v' : V) :
  ~ In k (keys m1) -> ~ In k (keys m2) ->
  set (m1 ++ (k, v) :: m2) k v' = m1 ++ (k, v') :: m2.
Proof.
  intros H1 H2. unfold set.
  assert (Hhas : has (m1 ++ (k, v) :: m2) k = true).
  { apply has_In. unfold keys. rewrite map_app. apply in_elt. }
  rewrite Hhas, map_app. simpl. unfold keyIs at 2. simpl.
  rewrite value_eqb_refl.
  assert (Hid : forall m0, ~ In k (keys m0) ->
            map (fun kv => if keyIs k kv then (fst kv, v') else kv) m0 = m0).
  { induction m0 as [|[k0 v0] m0 IH]; simpl; intros H; [reflexivity|].
    unfold keyIs at 1. simpl. destruct (value_eqb k0 k) eqn:E.
    - apply value_eqb_eq in E. tauto.
    - rewrite IH; tauto. }
  now rewrite (Hid m1 H1), (Hid m2 H2).
Qed.

Lemma set_new m k (v : V) : has m k = false -> set m k v = m ++ [(k, v)].
Proof. unfold set. now intros ->. Qed.

End MapFacts.

(* ================================================================= *)
(** ** The resolver builds the map in order of first assignment *)

Section FirstOccurrences.

Lemma firstOccurrences_In (k : value) (l : list value) :
  In k (firstOccurrences l) <-> In k l.
Proof.
  induction l as [|a l IH]; simpl; [tauto|].
  rewrite filter_In, IH, negb_true_iff, value_eqb_neq.
  destruct (value_eqb a k) eqn:E.
  - apply value_eqb_eq in E. tauto.
  - apply value_eqb_neq in E. intuition congruence.
Qed.

Lemma firstOccurrences_snoc (l : list value) (k : value) :
  firstOccurrences (l ++ [k]) =
  if existsb (value_eqb k) l then firstOccurrences l
  else firstOccurrences l ++ [k].
Proof.
  induction l as [|a l IH]; simpl; [reflexivity|].
  rewrite IH. destruct (value_eqb k a) eqn:E; simpl.
  - destruct (existsb (value_eqb k) l); [reflexivity|].
    rewrite filter_app. simpl. rewrite E. simpl. now rewrite app_nil_r.
  - destruct (existsb (value_eqb k) l); [reflexivity|].
    rewrite filter_app. simpl. now rewrite E.
Qed.

Lemma firstOccurrences_NoDup (l : list value) : NoDup (firstOccurrences l).
Proof.
  induction l as [|a l IH]; simpl; constructor.
  - rewrite filter_In, value_eqb_refl. simpl. intros [_ H]; discriminate.
  - apply NoDup_filter, IH.
Qed.

End FirstOccurrences.

Section Resolver.

Variable groupNodes : list CanvasNode.

Lemma addCard_known (m1 m2 : Map (list CanvasNode)) (cs : list CanvasNode)
  (card : CanvasNode) (k : value) :
  findNodeGroup card groupNodes = k ->
  ~ In k (keys m1) -> ~ In k (keys m2) ->
  addCard groupNodes (m1 ++ (k, cs) :: m2) card
  = m1 ++ (k, cs ++ [card]) :: m2.
Proof.
  intros Hk H1 H2. unfold addCard. rewrite Hk.
  assert (Hhas : has (m1 ++ (k, cs) :: m2) k = true).
  { apply has_In. unfold keys. rewrite map_app. apply in_elt. }
  rewrite Hhas. simpl. rewrite get_middle by assumption.
  apply set_middle; assumption.
Qed.

Lemma addCard_new (m : Map (list CanvasNode)) (card : CanvasNode)
  (k : value) :
  findNodeGroup card groupNodes = k ->
  has m k = false ->
  addCard groupNodes m card = m ++ [(k, [card])].
Proof.
  intros Hk Hhas. unfold addCard. rewrite Hk, Hhas. simpl.
  apply has_false in Hhas.
  rewrite set_new by (now apply has_false).
  rewrite get_middle by assumption.
  exact (set_middle m [] k [] ([] ++ [card]) Hhas (fun H => H)).
Qed.

Lemma filter_snoc_yes {A : Type} (f : A -> bool) (l : list A) (a : A) :
  f a = true -> filter f (l ++ [a]) = filter f l ++ [a].
Proof. intros H. rewrite filter_app. simpl. now rewrite H. Qed.

Lemma filter_snoc_no {A : Type} (f : A -> bool) (l : list A) (a : A) :
  f a = false -> filter f (l ++ [a]) = filter f l.
Proof. intros H. rewrite filter_app. simpl. rewrite H. apply app_nil_r. Qed.

Lemma filter_none {A : Type} (f : A -> bool) (l : list A) :
  (forall a, In a l -> f a = false) -> filter f l = [].
Proof.
  induction l as [|a l IH]; simpl; intros H; [reflexivity|].
  rewrite (H a) by (now left). apply IH. intros b Hb. apply H. now right.
Qed.

Lemma Grouped_NoDup (seen : list CanvasNode) (m : Map (list CanvasNode)) :
  Grouped groupNodes seen m -> NoDup (keys m).
Proof. intros [-> _]. apply firstOccurrences_NoDup. Qed.

Lemma Grouped_addCard (seen : list CanvasNode) (m : Map (list CanvasNode))
  (card : CanvasNode) :
  Grouped groupNodes seen m -> Grouped groupNodes (seen ++ [card]) (addCard groupNodes m card).
Proof.
  intros G. pose proof (Grouped_NoDup seen m G) as Hnd.
  destruct G as (Hkeys & Hlists & Hperm).
  set (k := findNodeGroup card groupNodes).
  assert (Hin : existsb (value_eqb k)
                  (map (fun c => findNodeGroup c groupNodes) seen)
                = has m k).
  { destruct (has m k) eqn:Hhas.
    - apply has_In in Hhas. rewrite Hkeys, firstOccurrences_In in Hhas.
      apply existsb_exists. exists k. split; [assumption|apply value_eqb_refl].
    - apply has_false in Hhas. rewrite Hkeys, firstOccurrences_In in Hhas.
      destruct (existsb _ _) eqn:E; [|reflexivity].
      apply existsb_exists in E as [k' [Hk' E]].
      apply value_eqb_eq in E. subst k'. tauto. }
  destruct (has m k) eqn:Hhas.
  - destruct (has_split m k Hhas) as (m1 & cs & m2 & -> & Hm1).
    assert (Hm2 : ~ In k (keys m2)).
    { unfold keys in Hnd. rewrite map_app in Hnd. simpl in Hnd.
      apply NoDup_remove_2 in Hnd. intros H. apply Hnd.
      apply in_or_app. right. exact H. }
    rewrite (addCard_known m1 m2 cs card k eq_refl Hm1 Hm2).
    split; [|split].
    + rewrite map_app. simpl. fold k. rewrite firstOccurrences_snoc, Hin.
      rewrite <- Hkeys. unfold keys. now rewrite !map_app.
    + intros k' cs' Hk'.
      apply in_app_or in Hk' as [Hk'|[Hk'|Hk']].
      * assert (Hne : k' <> k).
        { intros ->. apply Hm1. unfold keys.
          apply in_map_iff. exists (k, cs'). auto. }
        destruct (Hlists k' cs') as [Hcs Hnil];
          [apply in_or_app; left; assumption|].
        split; [|assumption].
        rewrite filter_snoc_no; [assumption|].
        fold k. apply value_eqb_neq. congruence.
      * injection Hk' as <- <-.
        destruct (Hlists k cs) as [Hcs Hnil]; [apply in_elt|].
        split; [|destruct cs; discriminate].
        rewrite filter_snoc_yes by apply value_eqb_refl.
        now rewrite <- Hcs.
      * assert (Hne : k' <> k).
        { intros ->. apply Hm2. unfold keys.
          apply in_map_iff. exists (k, cs'). auto. }
        destruct (Hlists k' cs') as [Hcs Hnil];
          [apply in_or_app; right; right; assumption|].
        split; [|assumption].
        rewrite filter_snoc_no; [assumption|].
        fold k. apply value_eqb_neq. congruence.
    + rewrite map_app, concat_app in *. simpl in *.
      rewrite <- app_assoc.
      rewrite (app_assoc (concat (map snd m1))).
      rewrite (app_assoc (concat (map snd m1) ++ cs)).
      rewrite (Permutation_app_comm _ (concat (map snd m2))).
      rewrite !app_assoc. apply Permutation_app_tail.
      rewrite <- app_assoc.
      rewrite (Permutation_app_comm (concat (map snd m2))).
      rewrite <- app_assoc. exact Hperm.
  - rewrite (addCard_new m card k eq_refl Hhas).
    pose proof Hhas as Hnot. apply has_false in Hnot.
    split; [|split].
    + rewrite map_app. simpl. fold k. rewrite firstOccurrences_snoc, Hin.
      rewrite <- Hkeys. unfold keys. now rewrite map_app.
    + intros k' cs' Hk'. apply in_app_or in Hk' as [Hk'|[Hk'|[]]].
      * assert (Hne : k' <> k).
        { intros ->. apply Hnot. unfold keys.
          apply in_map_iff. exists (k, cs'). auto. }
        destruct (Hlists k' cs' Hk') as [Hcs Hnil].
        split; [|assumption].
        rewrite filter_snoc_no; [assumption|].
        fold k. apply value_eqb_neq. congruence.
      * injection Hk' as <- <-. split; [|discriminate].
        rewrite filter_snoc_yes by apply value_eqb_refl.
        replace (filter _ seen) with (@nil CanvasNode); [reflexivity|].
        symmetry. apply filter_none. intros c Hc.
        apply value_eqb_neq. intros E. apply Hnot.
        rewrite Hkeys, firstOccurrences_In. apply in_map_iff.
        exists c. auto.
    + rewrite map_app, concat_app. simpl. rewrite ?app_nil_r.
      apply Permutation_app_tail. exact Hperm.
Qed.

Lemma resolve_Grouped (blueCards : list CanvasNode) :
  Grouped groupNodes blueCards (resolve blueCards groupNodes).
Proof.
  unfold resolve.
  induction blueCards as [|card seen IH] using rev_ind.
  - split; [reflexivity|]. split; [intros k cs []|constructor].
  - rewrite fold_left_app. simpl. apply Grouped_addCard, IH.
Qed.

End Resolver.

(** C8. The keys of the resolver's map are the resolved group names in the
    order of their first occurrence among the candidates; the list of each
    key holds, in input order, exactly the candidates resolved to that key;
    and the lists together hold every candidate once. *)
Theorem resolve_order (blueCards groupNodes : list CanvasNode) :
  keys (resolve blueCards groupNodes)
  = firstOccurrences (map (fun c => findNodeGroup c groupNodes) blueCards)
  /\ NoDup (keys (resolve blueCards groupNodes))
  /\ (forall k cs, In (k, cs) (resolve blueCards groupNodes) ->
        cs = filter (fun c => value_eqb (findNodeGroup c groupNodes) k)
               blueCards)
  /\ Permutation (concat (map snd (resolve blueCards groupNodes))) blueCards.
Proof.
  pose proof (resolve_Grouped groupNodes blueCards) as G.
  pose proof (Grouped_NoDup _ _ _ G) as Hnd.
  destruct G as (Hkeys & Hlists & Hperm).
  repeat split; try assumption.
  intros k cs H. exact (proj1 (Hlists k cs H)).
Qed.

(* ================================================================= *)
(** ** The section walk *)

Section SectionWalk.

Variable m : Map (list CanvasNode).

Lemma forEachIndex_app (a b : list nat) (st : Walk) :
  forEachIndex (a ++ b) st
  = (st' <- forEachIndex a st ;; forEachIndex b st').
Proof.
  revert st. induction a as [|i a IH]; intros st; simpl.
  - reflexivity.
  - destruct (visitLine st i); [apply IH|reflexivity].
Qed.

(** Before the last line a call only tracks the headings. *)
Lemma visitLine_inner (L : list str) (c : str) (i : Z) (index : nat) :
  (S index < length L)%nat ->
  visitLine (mkWalk L m c i) index
  = Some (mkWalk L m
            (fst (trackHeading m (c, i) index (nth index L [])))
            (snd (trackHeading m (c, i) index (nth index L [])))).
Proof.
  intros Hlt. unfold visitLine, trackHeading, isHeading, headingName.
  cbn [contentLines groupedCards currentGroup insertIndex fst snd].
  destruct (startsWith (lit "## ") (nth index L [])); [reflexivity|].
  replace (Z.of_nat index =? Z.of_nat (length L) - 1) with false;
    [reflexivity|].
  symmetry. apply Z.eqb_neq. lia.
Qed.

Lemma forEachIndex_inner (lines : list str) :
  forall (P rest : list str) (c : str) (i : Z),
    rest <> [] ->
    forEachIndex (seq (length P) (length lines))
      (mkWalk (P ++ lines ++ rest) m c i)
    = Some (mkWalk (P ++ lines ++ rest) m
              (fst (scan m lines (length P) (c, i)))
              (snd (scan m lines (length P) (c, i)))).
Proof.
  induction lines as [|l lines IH]; intros P rest c i Hrest.
  - reflexivity.
  - cbn [length seq forEachIndex scan].
    rewrite visitLine_inner.
    2:{ destruct rest; [congruence|].
        rewrite ?length_app; simpl; rewrite ?length_app; simpl; lia. }
    change ((l :: lines) ++ rest) with (l :: lines ++ rest).
    rewrite nth_middle.
    destruct (trackHeading m (c, i) (length P) l) as [c' i'] eqn:T.
    cbn [fst snd].
    specialize (IH (P ++ [l]) rest c' i' Hrest).
    rewrite <- app_assoc in IH. simpl in IH.
    rewrite length_app in IH. simpl in IH.
    rewrite Nat.add_1_r in IH. exact IH.
Qed.

(** The walk is the tracking of the headings of all lines but the last,
    followed by the call on the last line. *)
Lemma walk_unfold (P : list str) (lastLine : str) :
  walk (mkWalk (P ++ [lastLine]) m [] (-1))
  = visitLine (mkWalk (P ++ [lastLine]) m
                 (fst (scan m P 0 ([], -1))) (snd (scan m P 0 ([], -1))))
      (length P).
Proof.
  unfold walk. cbn [contentLines].
  rewrite length_app. simpl length. rewrite seq_app. simpl seq.
  rewrite forEachIndex_app.
  pose proof (forEachIndex_inner P [] [lastLine] [] (-1)) as H.
  simpl in H. rewrite H by discriminate.
  simpl. destruct (visitLine _ _); reflexivity.
Qed.

Lemma scan_app (a b : list str) (index : nat) (ci : str * Z) :
  scan m (a ++ b) index ci = scan m b (index + length a) (scan m a index ci).
Proof.
  revert index ci. induction a as [|l a IH]; intros index ci; simpl.
  - now rewrite Nat.add_0_r.
  - rewrite IH. f_equal. lia.
Qed.

Lemma scan_no_heading (lines : list str) (index : nat) (ci : str * Z) :
  Forall (fun l => isHeading l = false) lines -> scan m lines index ci = ci.
Proof.
  revert index ci. induction lines as [|l lines IH]; intros index ci H.
  - reflexivity.
  - inversion H as [|? ? Hl Hrest]; subst. simpl.
    unfold trackHeading. rewrite Hl. apply IH, Hrest.
Qed.

Lemma Tracked_step (seen : list str) (ci : str * Z) (line : str) :
  Tracked m seen ci ->
  Tracked m (seen ++ [line]) (trackHeading m ci (length seen) line).
Proof.
  intros T. unfold trackHeading.
  destruct (isHeading line) eqn:Hh.
  - destruct (has m (Some (headingName line))) eqn:Hhas.
    + right. exists seen, line, []. simpl. rewrite Hhas.
      repeat split; auto.
    + destruct T as [T|(A & h & B & -> & Hi & HA & Himp)].
      * left. exact T.
      * right. exists A, h, (B ++ [line]). simpl. rewrite Hhas.
        rewrite <- app_assoc. repeat split; auto; discriminate.
  - destruct T as [T|(A & h & B & -> & Hi & HA & Himp)].
    + left. exact T.
    + right. exists A, h, (B ++ [line]).
      rewrite <- app_assoc. repeat split; auto.
      * apply Himp; assumption.
      * apply Forall_app. split; [apply Himp; assumption|].
        constructor; [assumption|constructor].
Qed.

Lemma scan_Tracked (lines : list str) :
  forall (seen : list str) (ci : str * Z),
    Tracked m seen ci ->
    Tracked m (seen ++ lines) (scan m lines (length seen) ci).
Proof.
  induction lines as [|l lines IH]; intros seen ci T; simpl.
  - now rewrite app_nil_r.
  - pose proof (IH _ _ (Tracked_step seen ci l T)) as H.
    rewrite length_app, <- app_assoc in H. simpl in H.
    now rewrite Nat.add_1_r in H.
Qed.

Lemma splice_after (A B : list str) (h : str) (newLines : list str) :
  splice (A ++ h :: B) (Z.to_nat (Z.of_nat (length A) + 1)) newLines
  = A ++ h :: newLines ++ B.
Proof.
  replace (Z.to_nat (Z.of_nat (length A) + 1)) with (S (length A)) by lia.
  unfold splice. induction A as [|a A IH]; simpl.
  - reflexivity.
  - f_equal. exact IH.
Qed.


Lemma visitLine_last_heading (P : list str) (lastLine c : str) (i : Z) :
  isHeading lastLine = true ->
  visitLine (mkWalk (P ++ [lastLine]) m c i) (length P)
  = Some (mkWalk (P ++ [lastLine]) m (headingName lastLine)
            (if has m (Some (headingName lastLine))
             then Z.of_nat (length P) else i)).
Proof.
  intros Hh. unfold visitLine.
  cbn [contentLines groupedCards currentGroup insertIndex].
  rewrite nth_middle. unfold isHeading in Hh. rewrite Hh. reflexivity.
Qed.

Lemma visitLine_last_plain (P : list str) (lastLine c : str) (i : Z) :
  isHeading lastLine = false ->
  visitLine (mkWalk (P ++ [lastLine]) m c i) (length P)
  = if negb (i =? -1) && has m (Some c)
    then match get m (Some c) with
         | Some cards =>
             newLines <- cardLines cards ;;
             Some (mkWalk
                     (splice (P ++ [lastLine]) (Z.to_nat (i + 1)) newLines)
                     (delete m (Some c)) [] (-1))
         | None => Some (mkWalk (P ++ [lastLine]) m [] (-1))
         end
    else Some (mkWalk (P ++ [lastLine]) m [] i).
Proof.
  intros Hh. unfold visitLine.
  cbn [contentLines groupedCards currentGroup insertIndex].
  rewrite nth_middle. unfold isHeading in Hh. rewrite Hh.
  replace (Z.of_nat (length P) =? Z.of_nat (length (P ++ [lastLine])) - 1)
    with true; [reflexivity|].
  symmetry. apply Z.eqb_eq. rewrite length_app. simpl. lia.
Qed.

Lemma Tracked_start : Tracked m [] ([], -1).
Proof. left. reflexivity. Qed.

(** The two ways the walk can end: it leaves lines and map as they were, or
    it splices the entries of the last heading after that heading and
    removes its key. *)
Lemma walk_cases (L : list str) :
  L <> [] ->
  (exists c i, walk (mkWalk L m [] (-1)) = Some (mkWalk L m c i)) \/
  (exists A h B cards,
      L = A ++ h :: B /\ B <> [] /\ isHeading h = true /\
      Forall (fun l => isHeading l = false) B /\
      get m (Some (headingName h)) = Some cards /\
      walk (mkWalk L m [] (-1))
      = (newLines <- cardLines cards ;;
         Some (mkWalk (A ++ h :: newLines ++ B)
                 (delete m (Some (headingName h))) [] (-1)))).
Proof.
  intros Hne. destruct (exists_last Hne) as (P & lastLine & ->).
  rewrite walk_unfold.
  pose proof (scan_Tracked P [] ([], -1) Tracked_start) as T.
  simpl in T. destruct (scan m P 0 ([], -1)) as [c i]. cbn [fst snd] in *.
  destruct (isHeading lastLine) eqn:Hh.
  - left. rewrite visitLine_last_heading by assumption. eauto.
  - rewrite visitLine_last_plain by assumption.
    destruct (negb (i =? -1) && has m (Some c)) eqn:Hflush; [|left; eauto].
    apply andb_true_iff in Hflush as [Hi Hhas].
    apply negb_true_iff, Z.eqb_neq in Hi.
    destruct T as [T|(A & h & B & -> & Hidx & HA & Himp)];
      cbn [fst snd] in *; [contradiction|].
    destruct (Himp Hhas) as [Hname HB].
    destruct (get_has m (Some c) Hhas) as [cards Hget].
    right. exists A, h, (B ++ [lastLine]), cards.
    rewrite Hname, Hget, Hidx.
    repeat split.
    + now rewrite <- app_assoc.
    + destruct B; discriminate.
    + assumption.
    + apply Forall_app. split; [assumption|].
      constructor; [assumption|constructor].
    + destruct (cardLines cards) as [newLines|]; [|reflexivity].
      rewrite <- app_assoc. simpl. rewrite splice_after. reflexivity.
Qed.

Lemma get_Some_has (k : value) (cards : list CanvasNode) :
  get m k = Some cards -> has m k = true.
Proof.
  intros H. apply get_In in H. apply has_In. unfold keys.
  apply in_map_iff. exists (k, cards). auto.
Qed.

(** The entries of the last heading of the document are spliced right
    after it, provided the document does not end with that heading line. *)
Lemma walk_last_section (A B : list str) (h : str)
  (cards : list CanvasNode) :
  B <> [] -> isHeading h = true ->
  Forall (fun l => isHeading l = false) B ->
  get m (Some (headingName h)) = Some cards ->
  walk (mkWalk (A ++ h :: B) m [] (-1))
  = (newLines <- cardLines cards ;;
     Some (mkWalk (A ++ h :: newLines ++ B)
             (delete m (Some (headingName h))) [] (-1))).
Proof.
  intros Hne Hh HB Hget.
  destruct (exists_last Hne) as (B' & lastLine & ->).
  apply Forall_app in HB as [HB' Hlast].
  inversion Hlast as [|? ? Hl _]; subst.
  pose proof (get_Some_has _ _ Hget) as Hhas.
  change (A ++ h :: B' ++ [lastLine]) with (A ++ (h :: B') ++ [lastLine]).
  rewrite app_assoc, walk_unfold, scan_app. simpl scan.
  rewrite scan_no_heading by assumption.
  unfold trackHeading. rewrite Hh, Hhas. cbn [fst snd].
  rewrite visitLine_last_plain by assumption.
  rewrite Hhas, Hget. rewrite ?Nat.add_0_l.
  assert (Hidx : negb (Z.of_nat (length A) =? -1) = true)
    by (apply negb_true_iff, Z.eqb_neq; lia).
  rewrite Hidx. cbn [andb].
  destruct (cardLines cards) as [newLines|]; [|reflexivity].
  rewrite <- app_assoc. simpl app. rewrite splice_after. reflexivity.
Qed.

End SectionWalk.

(* ================================================================= *)
(** ** The merged document *)

Section Merge.

Lemma appendGroups_newSections (m : Map (list CanvasNode)) :
  forall X, appendGroups X m = (ls <- newSections m ;; Some (X ++ ls)).
Proof.
  induction m as [|[group cards] m IH]; intros X; simpl.
  - now rewrite app_nil_r.
  - destruct (cardLines cards) as [newLines|]; [|reflexivity].
    rewrite IH. destruct (newSections m) as [more|]; [|reflexivity].
    now rewrite <- !app_assoc.
Qed.

Lemma newSections_app (a b : Map (list CanvasNode)) :
  newSections (a ++ b)
  = (sa <- newSections a ;; sb <- newSections b ;; Some (sa ++ sb)).
Proof.
  induction a as [|[group cards] a IH]; simpl.
  - destruct (newSections b); reflexivity.
  - destruct (cardLines cards) as [newLines|]; [|reflexivity].
    rewrite IH. destruct (newSections a) as [sa|]; [|reflexivity].
    destruct (newSections b) as [sb|]; [|reflexivity].
    simpl. now rewrite <- app_assoc.
Qed.

Lemma cardLines_total (cards : list CanvasNode) :
  (forall card, In card cards -> text card <> None) ->
  exists newLines, cardLines cards = Some newLines.
Proof.
  induction cards as [|card cards IH]; simpl; intros H.
  - eexists; reflexivity.
  - unfold cardLine. destruct (text card) as [body|] eqn:T.
    + destruct IH as [ls ->]; [intros c Hc; apply H; now right|].
      eexists; reflexivity.
    + exfalso. apply (H card); [now left|assumption].
Qed.

Lemma cardLines_fails (cards : list CanvasNode) :
  cardLines cards = None ->
  exists card, In card cards /\ text card = None.
Proof.
  induction cards as [|card cards IH]; simpl; [discriminate|].
  unfold cardLine. destruct (text card) as [body|] eqn:T.
  - destruct (cardLines cards); [discriminate|].
    intros _. destruct (IH eq_refl) as (c & Hc & Hn). exists c. auto.
  - intros _. exists card. auto.
Qed.

Lemma newSections_fails (m : Map (list CanvasNode)) :
  newSections m = None ->
  exists k cards card, In (k, cards) m /\ In card cards /\ text card = None.
Proof.
  induction m as [|[group cards] m IH]; simpl; [discriminate|].
  destruct (cardLines cards) as [newLines|] eqn:C.
  - destruct (newSections m); [discriminate|]. intros _.
    destruct (IH eq_refl) as (k & cs & c & Hin & Hc & Hn).
    exists k, cs, c. auto.
  - intros _. destruct (cardLines_fails _ C) as (c & Hc & Hn).
    exists group, cards, c. auto.
Qed.

(** A line ends at the first separator. *)
Lemma split_line (c : N) (a r : str) :
  ~ In c a -> split c (a ++ c :: r) = a :: split c r.
Proof.
  induction a as [|d a IH]; simpl; intros H.
  - now rewrite N.eqb_refl.
  - destruct (d =? c)%N eqn:E; [apply N.eqb_eq in E; tauto|].
    rewrite IH by tauto. reflexivity.
Qed.

Lemma split_header (r : str) :
  split LF (HEADER ++ r) = headerLines ++ split LF r.
Proof.
  assert (E : HEADER ++ r
              = lit "---" ++ LF :: [] ++ LF :: lit "kanban-plugin: basic"
                ++ LF :: [] ++ LF :: lit "---" ++ LF :: [] ++ LF :: r).
  { unfold HEADER. now rewrite <- !app_assoc. }
  rewrite E. unfold headerLines.
  assert (H3 : ~ In LF (lit "---")) by (vm_compute; intuition discriminate).
  assert (Hk : ~ In LF (lit "kanban-plugin: basic"))
    by (vm_compute; intuition discriminate).
  rewrite (split_line LF (lit "---") _ H3).
  rewrite (split_line LF [] _ (fun H => H)).
  rewrite (split_line LF (lit "kanban-plugin: basic") _ Hk).
  rewrite (split_line LF [] _ (fun H => H)).
  rewrite (split_line LF (lit "---") _ H3).
  rewrite (split_line LF [] _ (fun H => H)).
  reflexivity.
Qed.

Lemma join_header (X : list str) :
  X <> [] -> join [LF] (headerLines ++ X) = HEADER ++ join [LF] X.
Proof.
  destruct X as [|l ls]; [congruence|]. intros _.
  rewrite join_app by discriminate.
  change (flat_map (fun e => [LF] ++ e) (l :: ls))
    with ([LF] ++ join [LF] (l :: ls)).
  rewrite app_assoc. f_equal.
Qed.

Lemma headerLines_plain : Forall (fun l => isHeading l = false) headerLines.
Proof. repeat constructor. Qed.

(** A heading of a document that starts with plain lines lies after them. *)
Lemma heading_after_plain (H : list str) :
  Forall (fun l => isHeading l = false) H ->
  forall S A h B,
    H ++ S = A ++ h :: B -> isHeading h = true ->
    exists A', A = H ++ A' /\ S = A' ++ h :: B.
Proof.
  induction 1 as [|x H Hx HH IH]; intros S A h B E Hh; simpl in *.
  - exists A. auto.
  - destruct A as [|a A]; simpl in E; injection E as -> E.
    + congruence.
    + destruct (IH _ _ _ _ E Hh) as (A' & -> & ->). exists A'. auto.
Qed.

Lemma initialContent_header (existing : option str) :
  exists r, initialContent existing = HEADER ++ r.
Proof.
  destruct existing as [d|]; unfold initialContent.
  - destruct (startsWith HEADER d) eqn:E; cbn [negb].
    + apply startsWith_inv, E.
    + exists d; reflexivity.
  - exists []. now rewrite app_nil_r.
Qed.

(** The header is added to a document at most once. *)
Lemma initialContent_idempotent (existing : option str) :
  initialContent (Some (initialContent existing)) = initialContent existing.
Proof.
  destruct (initialContent_header existing) as [r E].
  unfold initialContent at 1. rewrite E at 1. rewrite startsWith_app.
  reflexivity.
Qed.

(** The lines of the merged document: the lines the walk was given, with at
    most one run of entries spliced in after a heading, then the new
    sections. *)
Lemma merge_cases (existing : option str) (m : Map (list CanvasNode)) :
  exists r,
    initialContent existing = HEADER ++ r /\
    ((merge existing m
      = (ls <- newSections m ;;
         Some (join [LF] ((headerLines ++ split LF r) ++ ls))))
     \/
     (exists A h B cards,
         split LF r = A ++ h :: B /\ B <> [] /\ isHeading h = true /\
         Forall (fun l => isHeading l = false) B /\
         get m (Some (headingName h)) = Some cards /\
         merge existing m
         = (newLines <- cardLines cards ;;
            ls <- newSections (delete m (Some (headingName h))) ;;
            Some (join [LF]
                    ((headerLines ++ A ++ h :: newLines ++ B) ++ ls))))).
Proof.
  destruct (initialContent_header existing) as [r E].
  exists r. split; [assumption|].
  unfold merge. rewrite E, split_header.
  assert (Hne : headerLines ++ split LF r <> []) by discriminate.
  destruct (walk_cases m _ Hne)
    as [(c & i & ->)|(A & h & B & cards & EL & HB & Hh & HBs & Hget & ->)].
  - left. cbn [contentLines groupedCards].
    rewrite appendGroups_newSections.
    destruct (newSections m); reflexivity.
  - right.
    destruct (heading_after_plain _ headerLines_plain _ _ _ _ EL Hh)
      as (A' & -> & ES).
    exists A', h, B, cards. repeat split; try assumption.
    destruct (cardLines cards) as [newLines|]; [|reflexivity].
    cbn [contentLines groupedCards].
    rewrite appendGroups_newSections.
    destruct (newSections _); [|reflexivity].
    now rewrite <- !app_assoc.
Qed.

Lemma merge_nil (existing : option str) :
  merge existing [] = Some (initialContent existing).
Proof.
  destruct (merge_cases existing [])
    as (r & E & [->|(A & h & B & cards & _ & _ & _ & _ & Hget & _)]).
  - cbn [newSections]. rewrite app_nil_r, <- split_header, join_split.
    now rewrite E.
  - discriminate.
Qed.

Lemma some_eq {A : Type} (a b : A) : Some a = Some b -> a = b.
Proof. congruence. Qed.

(** The merged document starts with the header. *)
Lemma merge_starts_with_header (existing : option str)
  (m : Map (list CanvasNode)) (out : str) :
  merge existing m = Some out -> startsWith HEADER out = true.
Proof.
  destruct (merge_cases existing m)
    as (r & E & [->|(A & h & B & cards & _ & _ & _ & _ & Hget & ->)]).
  - destruct (newSections m) as [ls|]; [|discriminate].
    intros H. apply some_eq in H. subst out.
    rewrite <- app_assoc, join_header.
    + apply startsWith_app.
    + intros H. apply app_eq_nil in H as [H _].
      exact (split_not_nil _ _ H).
  - destruct (cardLines cards) as [newLines|]; [|discriminate].
    destruct (newSections _) as [ls|]; [|discriminate].
    intros H. apply some_eq in H. subst out.
    rewrite <- app_assoc, join_header.
    + apply startsWith_app.
    + destruct A; discriminate.
Qed.

(** The merge succeeds when every card of the map has a text. *)
Lemma merge_total (existing : option str) (m : Map (list CanvasNode)) :
  merge existing m = None ->
  exists k cards card, In (k, cards) m /\ In card cards /\ text card = None.
Proof.
  destruct (merge_cases existing m)
    as (r & E & [->|(A & h & B & cards & _ & _ & _ & _ & Hget & ->)]).
  - destruct (newSections m) as [ls|] eqn:S; [discriminate|].
    intros _. apply newSections_fails, S.
  - destruct (cardLines cards) as [newLines|] eqn:C.
    + destruct (newSections _) as [ls|] eqn:S; [discriminate|].
      intros _. destruct (newSections_fails _ S) as (k & cs & c & Hin & Hc & Hn).
      exists k, cs, c. repeat split; try assumption.
      eapply In_delete, Hin.
    + intros _. destruct (cardLines_fails _ C) as (c & Hc & Hn).
      exists (Some (headingName h)), cards, c.
      repeat split; try assumption. apply get_In, Hget.
Qed.


(** Merging again with no entries changes nothing. *)
Lemma merge_then_empty (existing : option str) (m : Map (list CanvasNode))
  (out : str) :
  merge existing m = Some out -> merge (Some out) [] = Some out.
Proof.
  intros H. rewrite merge_nil. f_equal.
  unfold initialContent.
  now rewrite (merge_starts_with_header existing m out H).
Qed.

(** The entries of the last heading of the document, merged. *)
Lemma merge_last_section (existing : option str) (m : Map (list CanvasNode))
  (r : str) (A B : list str) (h : str) (cards : list CanvasNode) :
  initialContent existing = HEADER ++ r ->
  split LF r = A ++ h :: B ->
  B <> [] -> isHeading h = true ->
  Forall (fun l => isHeading l = false) B ->
  get m (Some (headingName h)) = Some cards ->
  merge existing m
  = (newLines <- cardLines cards ;;
     ls <- newSections (delete m (Some (headingName h))) ;;
     Some (join [LF] (headerLines ++ A ++ h :: newLines ++ B ++ ls))).
Proof.
  intros E ES HB Hh HBs Hget. unfold merge.
  rewrite E, split_header, ES, app_assoc.
  rewrite (walk_last_section m (headerLines ++ A) B h cards HB Hh HBs Hget).
  destruct (cardLines cards) as [newLines|]; [|reflexivity].
  cbn [contentLines groupedCards]. rewrite appendGroups_newSections.
  destruct (newSections _) as [ls|]; [|reflexivity].
  repeat (rewrite <- app_assoc || rewrite <- app_comm_cons). reflexivity.
Qed.

End Merge.

(** The example of the specification: the new entry goes right after the
    heading, before the entry that was there. *)
Example merge_todo_example :
  merge (Some todoDocument) [(Some (lit "Todo"), [newCard])]
  = Some (HEADER ++ lit "## Todo" ++ [LF] ++ lit "- [ ] new" ++ [LF]
          ++ lit "- [ ] existing" ++ [LF]).
Proof. vm_compute. reflexivity. Qed.

(** C1. Entries for a heading that exists in the document but is not its
    last heading are not spliced after that heading: on the board
    [twoSections] the entry for [A] ends up in a second section [A] at the
    end of the document. *)
Theorem merge_existing_heading_not_last :
  merge (Some twoSections) [(Some (lit "A"), [newCard])]
  = Some (twoSections ++ [LF] ++ [LF] ++ lit "## A" ++ [LF] ++ [LF]
          ++ lit "- [ ] new").
Proof. vm_compute. reflexivity. Qed.

(** C3. Merging an empty map of entries into a document that begins with
    the header gives the document back unchanged. *)
Theorem merge_empty_entries_unchanged (existingContent : str) :
  startsWith HEADER existingContent = true ->
  merge (Some existingContent) [] = Some existingContent.
Proof.
  intros H. rewrite merge_nil. unfold initialContent. now rewrite H.
Qed.

Lemma merge_empty_entries_unchanged_witness :
  startsWith HEADER twoSections = true /\
  merge (Some twoSections) [] = Some twoSections.
Proof.
  split; [reflexivity|].
  apply (merge_empty_entries_unchanged twoSections). reflexivity.
Defined.

(** C4. The content the merge works on is the document itself when it
    begins with the header and the header followed by the document
    otherwise (the header alone for an empty or absent document); adding
    the header a second time changes nothing; the merged document begins
    with the header; and merging the entry [a] of group [Todo] into an
    empty or absent document gives the header, a blank line, the heading
    [## Todo], a blank line and the entry. *)
Theorem merge_prepends_header (existingContent : str)
  (entries : Map (list CanvasNode)) :
  initialContent (Some existingContent)
  = (if startsWith HEADER existingContent then existingContent
     else HEADER ++ existingContent)
  /\ initialContent (Some []) = HEADER
  /\ initialContent None = HEADER
  /\ initialContent (Some (initialContent (Some existingContent)))
     = initialContent (Some existingContent)
  /\ merge (Some existingContent) entries
     = merge (Some (initialContent (Some existingContent))) entries
  /\ match merge (Some existingContent) entries with
     | Some out => startsWith HEADER out = true
     | None => True
     end
  /\ merge (Some []) [(Some (lit "Todo"), [blueCard 0 0 (lit "a")])]
     = Some (HEADER ++ [LF] ++ [LF] ++ lit "## Todo" ++ [LF] ++ [LF]
             ++ lit "- [ ] a")
  /\ merge None [(Some (lit "Todo"), [blueCard 0 0 (lit "a")])]
     = Some (HEADER ++ [LF] ++ [LF] ++ lit "## Todo" ++ [LF] ++ [LF]
             ++ lit "- [ ] a").
Proof.
  split; [|split; [|split; [|split; [|split; [|split; [|split]]]]]].
  - unfold initialContent. now destruct (startsWith HEADER existingContent).
  - reflexivity.
  - reflexivity.
  - apply initialContent_idempotent.
  - unfold merge. now rewrite initialContent_idempotent.
  - destruct (merge (Some existingContent) entries) as [out|] eqn:M;
      [|exact I].
    exact (merge_starts_with_header _ _ _ M).
  - vm_compute. reflexivity.
  - vm_compute. reflexivity.
Qed.

(* ================================================================= *)
(** ** The canvas after archiving *)

Lemma filter_all {A : Type} (f : A -> bool) (l : list A) :
  (forall a, In a l -> f a = true) -> filter f l = l.
Proof.
  induction l as [|a l IH]; simpl; intros H; [reflexivity|].
  rewrite (H a) by (now left). f_equal. apply IH.
  intros b Hb. apply H. now right.
Qed.

Lemma filter_nil_all {A : Type} (f : A -> bool) (l : list A) :
  filter f l = [] -> forall a, In a l -> f a = false.
Proof.
  intros E a Ha. destruct (f a) eqn:F; [|reflexivity].
  assert (H : In a (filter f l)) by (apply filter_In; auto).
  rewrite E in H. destruct H.
Qed.

Lemma filter_complement_length {A : Type} (f : A -> bool) (l : list A) :
  length l
  = (length (filter (fun a => negb (f a)) l) + length (filter f l))%nat.
Proof.
  induction l as [|a l IH]; simpl; [reflexivity|].
  destruct (f a); simpl; lia.
Qed.

Lemma isBlueCard_iff (node : CanvasNode) :
  isBlueCard node = true <->
  type node = lit "text" /\ color node = Some (lit "6").
Proof.
  unfold isBlueCard. now rewrite andb_true_iff, str_eqb_eq, value_eqb_eq.
Qed.

(** C9. A run that writes the view data writes the parsed canvas with
    exactly the nodes of type ["text"] and color ["6"] filtered out of
    [nodes]: the other nodes stay, in their order and as they were, and
    [edges] and [metadata] are as they were; the count it reports is the
    number of nodes removed.  A run that stops for want of such nodes
    leaves a canvas that has none.  A run fails, writing nothing, only when
    the canvas file has no parent folder or such a node has no text. *)
Theorem archiveBlueCards_removes_blue_cards (canvasData : CanvasData)
  (hasParent : bool) (existing : option str) :
  match archiveBlueCards canvasData hasParent existing with
  | Archived _ updatedCanvasData count =>
      (exists keep : CanvasNode -> bool,
          (forall node,
              keep node = false <->
              type node = lit "text" /\ color node = Some (lit "6")) /\
          nodes updatedCanvasData = filter keep (nodes canvasData))
      /\ edges updatedCanvasData = edges canvasData
      /\ metadata updatedCanvasData = metadata canvasData
      /\ length (nodes canvasData)
         = (length (nodes updatedCanvasData) + count)%nat
  | NoBlueCards =>
      forall node, In node (nodes canvasData) ->
                   ~ (type node = lit "text" /\ color node = Some (lit "6"))
  | Failed =>
      hasParent = false
      \/ exists card, In card (nodes canvasData) /\
                      type card = lit "text" /\
                      color card = Some (lit "6") /\
                      text card = None
  end.
Proof.
  unfold archiveBlueCards.
  destruct (length (filter isBlueCard (nodes canvasData)) =? 0)%nat eqn:E0.
  - apply Nat.eqb_eq, length_zero_iff_nil in E0.
    intros node Hnode Hblue. apply isBlueCard_iff in Hblue.
    now rewrite (filter_nil_all _ _ E0 node Hnode) in Hblue.
  - destruct hasParent; cbn [negb]; [|now left].
    destruct (merge existing _) as [kanbanContent|] eqn:M.
    + cbn [nodes edges metadata]. repeat split.
      * exists (fun node => negb (isBlueCard node)). split; [|reflexivity].
        intros node. rewrite negb_false_iff. apply isBlueCard_iff.
      * apply filter_complement_length.
    + right. destruct (merge_total _ _ M) as (k & cards & card & Hin & Hc & Hn).
      destruct (resolve_Grouped (filter isGroup (nodes canvasData))
                  (filter isBlueCard (nodes canvasData)))
        as (_ & Hlists & _).
      destruct (Hlists k cards Hin) as [Hcards _].
      rewrite Hcards in Hc. apply filter_In in Hc as [Hc _].
      apply filter_In in Hc as [Hc Hblue].
      apply isBlueCard_iff in Hblue as [Ht Hcol].
      exists card. auto.
Qed.

(* ================================================================= *)
(** ** A group without a heading in the document *)

Lemma scan_fresh (M M' : Map (list CanvasNode)) (lines : list str) :
  (forall line, In line lines -> isHeading line = true ->
     has M (Some (headingName line)) = has M' (Some (headingName line))) ->
  forall index ci, scan M lines index ci = scan M' lines index ci.
Proof.
  induction lines as [|l lines IH]; intros H index ci; simpl.
  - reflexivity.
  - assert (T : trackHeading M ci index l = trackHeading M' ci index l).
    { unfold trackHeading. destruct (isHeading l) eqn:Hh; [|reflexivity].
      rewrite (H l); auto. now left. }
    rewrite T. apply IH. intros line Hin. apply H. now right.
Qed.

Section FreshGroup.

Variables (m1 m2 : Map (list CanvasNode)) (g : value)
  (cards : list CanvasNode).

(** The walk treats a map with the entry of [g] and the map without it
    alike, when no heading of the document bears the name [g]. *)
Lemma walk_fresh (L : list str) :
  L <> [] ->
  (forall line, In line L -> isHeading line = true ->
                Some (headingName line) <> g) ->
  (walk (mkWalk L (m1 ++ (g, cards) :: m2) [] (-1)) = None /\
   walk (mkWalk L (m1 ++ m2) [] (-1)) = None)
  \/
  (exists X r1 r2 c i c' i',
      X <> [] /\ (m2 = [] -> r2 = []) /\
      walk (mkWalk L (m1 ++ (g, cards) :: m2) [] (-1))
      = Some (mkWalk X (r1 ++ (g, cards) :: r2) c i) /\
      walk (mkWalk L (m1 ++ m2) [] (-1))
      = Some (mkWalk X (r1 ++ r2) c' i')).
Proof.
  intros Hne Hfresh. destruct (exists_last Hne) as (P & lastLine & ->).
  rewrite !walk_unfold.
  assert (Hhas : forall line, In line (P ++ [lastLine]) ->
            isHeading line = true ->
            has (m1 ++ (g, cards) :: m2) (Some (headingName line))
            = has (m1 ++ m2) (Some (headingName line))).
  { intros line Hin Hh. apply has_skip. exact (Hfresh line Hin Hh). }
  rewrite <- (scan_fresh (m1 ++ (g, cards) :: m2) (m1 ++ m2) P).
  2:{ intros line Hin. apply Hhas. apply in_or_app. now left. }
  pose proof (scan_Tracked (m1 ++ (g, cards) :: m2) P [] ([], -1)
                (Tracked_start _)) as T.
  simpl in T.
  destruct (scan (m1 ++ (g, cards) :: m2) P 0 ([], -1)) as [c i].
  cbn [fst snd] in *.
  destruct (isHeading lastLine) eqn:Hh.
  - rewrite !visitLine_last_heading by assumption.
    right. exists (P ++ [lastLine]), m1, m2. do 4 eexists.
    repeat split; [destruct P; discriminate|auto].
  - rewrite !visitLine_last_plain by assumption.
    destruct (negb (i =? -1)) eqn:Hi; cbn [andb].
    2:{ right. exists (P ++ [lastLine]), m1, m2. do 4 eexists.
        repeat split; [destruct P; discriminate|auto]. }
    apply negb_true_iff, Z.eqb_neq in Hi.
    destruct T as [T|(A & h & B & -> & Hidx & HA & Himp)];
      cbn [fst snd] in *; [contradiction|].
    destruct (has (m1 ++ (g, cards) :: m2) (Some c)) eqn:Hc.
    + destruct (Himp eq_refl) as [Hname HB].
      assert (Hng : Some c <> g).
      { rewrite <- Hname. apply Hfresh; [|assumption].
        apply in_or_app. left. apply in_elt. }
      rewrite <- (has_skip m1 m2 (Some c) g cards Hng), Hc.
      rewrite <- (get_skip m1 m2 (Some c) g cards Hng).
      destruct (get_has _ _ Hc) as [cs ->].
      destruct (cardLines cs) as [newLines|]; [|left; auto].
      right. rewrite (delete_skip m1 m2 (Some c) g cards Hng), delete_app.
      rewrite Hidx, <- !app_assoc. simpl app. rewrite splice_after.
      exists (A ++ h :: newLines ++ B ++ [lastLine]),
        (delete m1 (Some c)), (delete m2 (Some c)).
      do 4 eexists. repeat split; [destruct A; discriminate|].
      intros ->; reflexivity.
    + assert (Hc' : has (m1 ++ m2) (Some c) = false).
      { rewrite has_app in *. simpl in Hc.
        apply orb_false_iff in Hc as [H1 H2].
        apply orb_false_iff in H2 as [_ H2].
        now rewrite H1, H2. }
      rewrite Hc'. right. exists ((A ++ h :: B) ++ [lastLine]), m1, m2.
      do 4 eexists. repeat split; [destruct A; discriminate|auto].
Qed.

End FreshGroup.

(** The headings the walk meets are headings of the document. *)
Lemma initialContent_headings (existing : option str) (line : str) :
  In line (split LF (initialContent existing)) -> isHeading line = true ->
  In line (split LF (document existing)).
Proof.
  assert (Hplain : In line headerLines -> isHeading line = true -> False).
  { intros Hin Hh. pose proof headerLines_plain as F.
    rewrite Forall_forall in F. rewrite (F line Hin) in Hh. discriminate. }
  destruct existing as [d|]; unfold initialContent, document.
  - destruct (startsWith HEADER d); cbn [negb]; [auto|].
    rewrite split_header. intros Hin Hh.
    apply in_app_or in Hin as [Hin|Hin]; [destruct (Hplain Hin Hh)|assumption].
  - rewrite <- (app_nil_r HEADER), split_header. intros Hin Hh.
    apply in_app_or in Hin as [Hin|Hin]; [destruct (Hplain Hin Hh)|assumption].
Qed.

(** Lines without a line feed are the lines of their join. *)
Lemma split_join_lines (ls : list str) :
  forall a, ~ In LF a -> Forall (fun l => ~ In LF l) ls ->
            split LF (join [LF] (a :: ls)) = a :: ls.
Proof.
  induction ls as [|l ls IH]; intros a Ha Hls.
  - simpl. rewrite app_nil_r. now apply split_no_sep.
  - inversion Hls as [|? ? Hl Hrest]; subst.
    change (join [LF] (a :: l :: ls)) with (a ++ ([LF] ++ l) ++ joined ls).
    rewrite <- app_assoc. change ([LF] ++ l ++ joined ls)
      with (LF :: join [LF] (l :: ls)).
    rewrite split_line by assumption. now rewrite IH.
Qed.

Lemma cardLines_no_LF (cards : list CanvasNode) :
  forall newLines, cardLines cards = Some newLines ->
                   Forall (fun l => ~ In LF l) newLines.
Proof.
  induction cards as [|card cards IH]; simpl; intros newLines H.
  - apply some_eq in H. subst. constructor.
  - unfold cardLine in H. destruct (text card) as [body|]; [|discriminate].
    destruct (cardLines cards) as [ls|]; [|discriminate].
    apply some_eq in H. subst. constructor; [|now apply IH].
    intros Hin. apply in_app_or in Hin as [Hin|Hin].
    + exact (lit_entry_prefix_no_LF Hin).
    + exact (replaceAll_no_sep LF (lit "<br>") body lit_br_no_LF Hin).
Qed.

Section FreshGroupPlace.

Variables (m1 m2 : Map (list CanvasNode)) (g : value)
  (cards : list CanvasNode).

(** [walk_fresh], with the lines and the maps the walk ends with. *)
Lemma walk_fresh_exact (L : list str) :
  L <> [] ->
  (forall line, In line L -> isHeading line = true ->
                Some (headingName line) <> g) ->
  (walk (mkWalk L (m1 ++ (g, cards) :: m2) [] (-1)) = None /\
   walk (mkWalk L (m1 ++ m2) [] (-1)) = None)
  \/
  (exists X r1 r2 c i c' i',
      ((X = L /\ r1 = m1 /\ r2 = m2) \/
       (exists A h B nl k,
           L = A ++ h :: B /\ isHeading h = true /\
           X = A ++ h :: nl ++ B /\
           r1 = delete m1 k /\ r2 = delete m2 k)) /\
      walk (mkWalk L (m1 ++ (g, cards) :: m2) [] (-1))
      = Some (mkWalk X (r1 ++ (g, cards) :: r2) c i) /\
      walk (mkWalk L (m1 ++ m2) [] (-1))
      = Some (mkWalk X (r1 ++ r2) c' i')).
Proof.
  intros Hne Hfresh. destruct (exists_last Hne) as (P & lastLine & ->).
  rewrite !walk_unfold.
  assert (Hhas : forall line, In line (P ++ [lastLine]) ->
            isHeading line = true ->
            has (m1 ++ (g, cards) :: m2) (Some (headingName line))
            = has (m1 ++ m2) (Some (headingName line))).
  { intros line Hin Hh. apply has_skip. exact (Hfresh line Hin Hh). }
  rewrite <- (scan_fresh (m1 ++ (g, cards) :: m2) (m1 ++ m2) P).
  2:{ intros line Hin. apply Hhas. apply in_or_app. now left. }
  pose proof (scan_Tracked (m1 ++ (g, cards) :: m2) P [] ([], -1)
                (Tracked_start _)) as T.
  simpl in T.
  destruct (scan (m1 ++ (g, cards) :: m2) P 0 ([], -1)) as [c i].
  cbn [fst snd] in *.
  destruct (isHeading lastLine) eqn:Hh.
  - rewrite !visitLine_last_heading by assumption.
    right. exists (P ++ [lastLine]), m1, m2. do 4 eexists.
    split; [left; auto|]. split; reflexivity.
  - rewrite !visitLine_last_plain by assumption.
    destruct (negb (i =? -1)) eqn:Hi; cbn [andb].
    2:{ right. exists (P ++ [lastLine]), m1, m2. do 4 eexists.
        split; [left; auto|]. split; reflexivity. }
    apply negb_true_iff, Z.eqb_neq in Hi.
    destruct T as [T|(A & h & B & -> & Hidx & HA & Himp)];
      cbn [fst snd] in *; [contradiction|].
    destruct (has (m1 ++ (g, cards) :: m2) (Some c)) eqn:Hc.
    + destruct (Himp eq_refl) as [Hname HB].
      assert (Hng : Some c <> g).
      { rewrite <- Hname. apply Hfresh; [|assumption].
        apply in_or_app. left. apply in_elt. }
      rewrite <- (has_skip m1 m2 (Some c) g cards Hng), Hc.
      rewrite <- (get_skip m1 m2 (Some c) g cards Hng).
      destruct (get_has _ _ Hc) as [cs ->].
      destruct (cardLines cs) as [newLines|]; [|left; auto].
      right. rewrite (delete_skip m1 m2 (Some c) g cards Hng), delete_app.
      rewrite Hidx, <- !app_assoc. simpl app. rewrite splice_after.
      exists (A ++ h :: newLines ++ B ++ [lastLine]),
        (delete m1 (Some c)), (delete m2 (Some c)).
      do 4 eexists. split; [|split; reflexivity].
      right. exists A, h, (B ++ [lastLine]), newLines, (Some c).
      repeat split. assumption.
    + assert (Hc' : has (m1 ++ m2) (Some c) = false).
      { rewrite has_app in *. simpl in Hc.
        apply orb_false_iff in Hc as [H1 H2].
        apply orb_false_iff in H2 as [_ H2].
        now rewrite H1, H2. }
      rewrite Hc'. right. exists ((A ++ h :: B) ++ [lastLine]), m1, m2.
      do 4 eexists. split; [left; auto|]. split; reflexivity.
Qed.

End FreshGroupPlace.

(** The entries of cards that all have a text. *)
Lemma cardLines_of_bodies (cards : list CanvasNode) :
  forall bodies,
    map text cards = map Some bodies ->
    cardLines cards
    = Some (map (fun body => lit "- [ ] " ++ replaceAll LF (lit "<br>") body)
              bodies).
Proof.
  induction cards as [|card cards IH]; intros [|body bodies] H;
    try discriminate; [reflexivity|].
  simpl in H. injection H as Ht Hrest. simpl. unfold cardLine.
  rewrite Ht, (IH bodies Hrest). reflexivity.
Qed.

(** The place of the new section of a group that no heading of the
    document names: after the document and the new sections of the groups
    before it in the map, before the new sections of the groups after
    it. *)
Lemma merge_fresh_place (existing : option str)
  (m1 m2 : Map (list CanvasNode)) (g : value) (cards : list CanvasNode)
  (newLines : list str) (base : str) :
  (forall line, In line (split LF (initialContent existing)) ->
                isHeading line = true -> Some (headingName line) <> g) ->
  cardLines cards = Some newLines ->
  merge existing (m1 ++ m2) = Some base ->
  exists pre r2 later,
    startsWith HEADER pre = true /\
    (r2 = m2 \/ exists k, r2 = delete m2 k) /\
    newSections r2 = Some later /\
    (m2 = [] -> later = []) /\
    base = pre ++ joined later /\
    merge existing (m1 ++ (g, cards) :: m2)
    = Some (pre ++ [LF] ++ headingElement g ++ joined newLines
            ++ joined later) /\
    exists kept r1 earlier,
      pre = join [LF] kept ++ joined earlier /\
      (r1 = m1 \/ exists k, r1 = delete m1 k) /\
      newSections r1 = Some earlier /\
      (kept = split LF (initialContent existing) \/
       exists A h B inserted,
         split LF (initialContent existing) = A ++ h :: B /\
         isHeading h = true /\ kept = A ++ h :: inserted ++ B).
Proof.
  intros Hfresh Hcards Hbase.
  destruct (initialContent_header existing) as [r E].
  unfold merge in *. rewrite E, split_header in *.
  destruct (walk_fresh_exact m1 m2 g cards (headerLines ++ split LF r))
    as [[_ Hnone]
       |(X & r1 & r2 & c & i & c' & i' & HX & Hw & Hwalk)].
  - discriminate.
  - exact Hfresh.
  - rewrite Hnone in Hbase. discriminate.
  - rewrite Hw. rewrite Hwalk in Hbase.
    cbn [contentLines groupedCards] in *.
    rewrite appendGroups_newSections, newSections_app in *.
    cbn [newSections]. rewrite Hcards.
    destruct (newSections r1) as [s1|] eqn:S1; [|discriminate].
    destruct (newSections r2) as [s2|] eqn:S2; [|discriminate].
    apply some_eq in Hbase. subst base.
    assert (HY : exists Y, Y <> [] /\ X = headerLines ++ Y).
    { destruct HX as [(-> & _ & _)
                     |(A & h & B & nl & k & EL & Hh & -> & _ & _)].
      - exists (split LF r). split; [apply split_not_nil|reflexivity].
      - destruct (heading_after_plain _ headerLines_plain _ _ _ _ EL Hh)
          as (A' & -> & _).
        exists (A' ++ h :: nl ++ B). split; [destruct A'; discriminate|].
        now rewrite <- app_assoc. }
    destruct HY as (Y & HYne & ->).
    exists (join [LF] (headerLines ++ Y) ++ joined s1), r2, s2.
    split; [|split; [|split; [|split; [|split; [|split]]]]].
    7:{ exists (headerLines ++ Y), r1, s1.
        split; [reflexivity|]. split; [|split; [exact S1|]].
        - destruct HX as [(_ & -> & _)
                         |(A & h & B & nl & k & _ & _ & _ & -> & _)];
            [now left|right; now exists k].
        - destruct HX as [(-> & _ & _)
                         |(A & h & B & nl & k & EL & Hh & -> & _ & _)];
            [now left|right].
          exists A, h, B, nl. now repeat split. }
    + rewrite join_header by assumption. rewrite <- app_assoc.
      apply startsWith_app.
    + destruct HX as [(_ & _ & ->)|(A & h & B & nl & k & _ & _ & _ & _ & ->)];
        [now left|right; now exists k].
    + exact S2.
    + intros Em2.
      assert (r2 = []) as Er2.
      { destruct HX as [(_ & _ & ->)
                       |(A & h & B & nl & k & _ & _ & _ & _ & ->)];
          [assumption|now rewrite Em2]. }
      rewrite Er2 in S2. simpl in S2. apply some_eq in S2. now subst s2.
    + rewrite !join_app by (destruct Y; [congruence|discriminate]).
      unfold joined. rewrite !flat_map_app. now rewrite <- !app_assoc.
    + f_equal. rewrite !join_app by (destruct Y; [congruence|discriminate]).
      unfold joined. rewrite !flat_map_app.
      cbn [flat_map]. rewrite !flat_map_app.
      now repeat (rewrite <- app_assoc; cbn [app]).
Qed.

(** C5, as the claim states it, fails for a group whose name holds a line
    feed: the heading element is pushed with the name as it is, so the
    lines appended for the name [A], line feed, [B] are a blank line, a
    line [## A], a line [B], a blank line and the entry, and no line of the
    document is the heading of the group. *)
Lemma merge_label_with_line_feed :
  (forall line, In line (split LF (document None)) ->
                isHeading line = true ->
                Some (headingName line) <> Some twoLineLabel) /\
  merge None [(Some twoLineLabel, [newCard])]
  = Some (HEADER ++ [LF; LF] ++ lit "## A" ++ [LF] ++ lit "B" ++ [LF; LF]
          ++ lit "- [ ] new") /\
  split LF (HEADER ++ [LF; LF] ++ lit "## A" ++ [LF] ++ lit "B" ++ [LF; LF]
            ++ lit "- [ ] new")
  = headerLines ++ [[]; []; lit "## A"; lit "B"; []; lit "- [ ] new"] /\
  ~ In (lit "## " ++ twoLineLabel)
      (split LF (HEADER ++ [LF; LF] ++ lit "## A" ++ [LF] ++ lit "B"
                 ++ [LF; LF] ++ lit "- [ ] new")).
Proof.
  split; [|split; [|split]].
  - intros line Hin Hh. vm_compute in Hin. destruct Hin as [<-|[]].
    discriminate Hh.
  - vm_compute. reflexivity.
  - vm_compute. reflexivity.
  - vm_compute. intuition discriminate.
Qed.

(** C5, amended. When no heading of the document bears the name of the
    group [g], and that name holds no line feed, merging with the entry of
    [g] in the map gives the document that the merge gives without it,
    with a new section put in after the document and the new sections of
    the groups before [g] in the map, and before the new sections of the
    groups after it: a blank line, the heading line of [g], a blank line,
    and one entry line for each card, in the order of the cards.  When [g]
    is the last key of the map the section is the end of the document.
    What stands before the section is the lines of the document, all kept
    in their order (with at most the entries of one other group put in
    after its heading), followed by the new sections of the groups before
    [g]. *)
Theorem merge_appends_new_section (existing : option str)
  (m1 m2 : Map (list CanvasNode)) (g : value) (cards : list CanvasNode)
  (bodies : list str) (base : str) :
  (forall line, In line (split LF (document existing)) ->
                isHeading line = true -> Some (headingName line) <> g) ->
  ~ In LF (toStr g) ->
  map text cards = map Some bodies ->
  merge existing (m1 ++ m2) = Some base ->
  exists pre r2 later,
    startsWith HEADER pre = true /\
    (r2 = m2 \/ exists k, r2 = delete m2 k) /\
    newSections r2 = Some later /\
    (m2 = [] -> later = []) /\
    base = pre ++ joined later /\
    merge existing (m1 ++ (g, cards) :: m2)
    = Some (pre ++ [LF; LF] ++ lit "## " ++ toStr g ++ [LF]
            ++ joined
                 (map (fun body =>
                         lit "- [ ] " ++ replaceAll LF (lit "<br>") body)
                    bodies)
            ++ joined later) /\
    split LF ([LF; LF] ++ lit "## " ++ toStr g ++ [LF]
              ++ joined
                   (map (fun body =>
                           lit "- [ ] " ++ replaceAll LF (lit "<br>") body)
                      bodies))
    = [[]; []; lit "## " ++ toStr g; []]
      ++ map (fun body => lit "- [ ] " ++ replaceAll LF (lit "<br>") body)
           bodies /\
    exists kept r1 earlier,
      pre = join [LF] kept ++ joined earlier /\
      (r1 = m1 \/ exists k, r1 = delete m1 k) /\
      newSections r1 = Some earlier /\
      (kept = split LF (initialContent existing) \/
       exists A h B inserted,
         split LF (initialContent existing) = A ++ h :: B /\
         isHeading h = true /\ kept = A ++ h :: inserted ++ B).
Proof.
  intros Hfresh Hg Hbodies Hbase.
  pose proof (cardLines_of_bodies cards bodies Hbodies) as Hcards.
  set (newLines := map (fun body =>
                          lit "- [ ] " ++ replaceAll LF (lit "<br>") body)
                     bodies) in *.
  assert (Hlines : split LF ([LF; LF] ++ lit "## " ++ toStr g ++ [LF]
                             ++ joined newLines)
                   = [[]; []; lit "## " ++ toStr g; []] ++ newLines).
  { assert (Hh : ~ In LF (lit "## " ++ toStr g)).
    { intros Hin. apply in_app_or in Hin as [Hin|Hin]; [|auto].
      vm_compute in Hin. intuition discriminate. }
    pose proof (cardLines_no_LF cards newLines Hcards) as Hno.
    change ([[]; []; lit "## " ++ toStr g; []] ++ newLines)
      with ([] :: ([[]; lit "## " ++ toStr g; []] ++ newLines)).
    rewrite <- (split_join_lines
                  ([[]; lit "## " ++ toStr g; []] ++ newLines) []).
    - reflexivity.
    - intros [].
    - repeat (constructor; [solve [auto | intros []]|]). exact Hno. }
  assert (Hfresh' : forall line,
             In line (split LF (initialContent existing)) ->
             isHeading line = true -> Some (headingName line) <> g).
  { intros line Hin Hh. apply Hfresh; [|assumption].
    now apply initialContent_headings. }
  destruct (merge_fresh_place existing m1 m2 g cards newLines base
              Hfresh' Hcards Hbase)
    as (pre & r2 & later & Hpre & Hr2 & Hlater & Hlast & Eb & Hm & Hkept).
  exists pre, r2, later.
  repeat (split; [assumption|]). split; [|split; [exact Hlines|exact Hkept]].
  etransitivity; [exact Hm|]. f_equal. unfold headingElement.
  now repeat (rewrite <- app_assoc; cbn [app]).
Qed.

Lemma merge_appends_new_section_witness :
  (forall line, In line (split LF (document (Some twoSections))) ->
                isHeading line = true ->
                Some (headingName line) <> Some (lit "C")) /\
  ~ In LF (toStr (Some (lit "C"))) /\
  map text [newCard] = map Some [lit "new"] /\
  merge (Some twoSections) ([(Some (lit "B"), [newCard])] ++ [])
  = Some (HEADER ++ lit "## A" ++ [LF] ++ lit "- [ ] x" ++ [LF]
          ++ lit "## B" ++ [LF] ++ lit "- [ ] new" ++ [LF]
          ++ lit "- [ ] y" ++ [LF]) /\
  exists pre r2 later,
    startsWith HEADER pre = true /\
    (r2 = [] \/ exists k, r2 = delete [] k) /\
    newSections r2 = Some later /\
    (([] : Map (list CanvasNode)) = [] -> later = []) /\
    HEADER ++ lit "## A" ++ [LF] ++ lit "- [ ] x" ++ [LF]
    ++ lit "## B" ++ [LF] ++ lit "- [ ] new" ++ [LF]
    ++ lit "- [ ] y" ++ [LF] = pre ++ joined later /\
    merge (Some twoSections)
      ([(Some (lit "B"), [newCard])] ++ (Some (lit "C"), [newCard]) :: [])
    = Some (pre ++ [LF; LF] ++ lit "## " ++ toStr (Some (lit "C")) ++ [LF]
            ++ joined
                 (map (fun body =>
                         lit "- [ ] " ++ replaceAll LF (lit "<br>") body)
                    [lit "new"])
            ++ joined later) /\
    split LF ([LF; LF] ++ lit "## " ++ toStr (Some (lit "C")) ++ [LF]
              ++ joined
                   (map (fun body =>
                           lit "- [ ] " ++ replaceAll LF (lit "<br>") body)
                      [lit "new"]))
    = [[]; []; lit "## " ++ toStr (Some (lit "C")); []]
      ++ map (fun body => lit "- [ ] " ++ replaceAll LF (lit "<br>") body)
           [lit "new"] /\
    exists kept r1 earlier,
      pre = join [LF] kept ++ joined earlier /\
      (r1 = [(Some (lit "B"), [newCard])] \/
       exists k, r1 = delete [(Some (lit "B"), [newCard])] k) /\
      newSections r1 = Some earlier /\
      (kept = split LF (initialContent (Some twoSections)) \/
       exists A h B inserted,
         split LF (initialContent (Some twoSections)) = A ++ h :: B /\
         isHeading h = true /\ kept = A ++ h :: inserted ++ B).
Proof.
  assert (H1 : forall line,
             In line (split LF (document (Some twoSections))) ->
             isHeading line = true ->
             Some (headingName line) <> Some (lit "C")).
  { intros line Hin Hh. vm_compute in Hin.
    repeat (destruct Hin as [<-|Hin]; [vm_compute; discriminate|]).
    destruct Hin. }
  assert (H2 : ~ In LF (toStr (Some (lit "C"))))
    by (vm_compute; intuition discriminate).
  assert (H3 : map text [newCard] = map Some [lit "new"]) by reflexivity.
  assert (H4 : merge (Some twoSections) ([(Some (lit "B"), [newCard])] ++ [])
               = Some (HEADER ++ lit "## A" ++ [LF] ++ lit "- [ ] x" ++ [LF]
                       ++ lit "## B" ++ [LF] ++ lit "- [ ] new" ++ [LF]
                       ++ lit "- [ ] y" ++ [LF]))
    by (vm_compute; reflexivity).
  split; [exact H1|]. split; [exact H2|]. split; [exact H3|].
  split; [exact H4|].
  exact (merge_appends_new_section (Some twoSections)
           [(Some (lit "B"), [newCard])] [] (Some (lit "C")) [newCard]
           [lit "new"] _ H1 H2 H3 H4).
Defined.

(* ================================================================= *)
(** ** Whole runs *)

(** The end-to-end scenario of the specification. *)
Example archive_backlog_scenario :
  resolve (filter isBlueCard (nodes backlogCanvas))
    (filter isGroup (nodes backlogCanvas))
  = [(Some (lit "Backlog"), [blueCard 10 10 (lit "one")]);
     (Some (lit "Uncategorized"), [blueCard 200 200 (lit "two")])]
  /\ archiveBlueCards backlogCanvas true None
     = Archived
         (HEADER ++ [LF] ++ [LF] ++ lit "## Backlog" ++ [LF] ++ [LF]
          ++ lit "- [ ] one" ++ [LF] ++ [LF] ++ lit "## Uncategorized"
          ++ [LF] ++ [LF] ++ lit "- [ ] two")
         (mkCanvasData [groupBox "Backlog" 0 0 100 100] [] [])
         2.
Proof. split; vm_compute; reflexivity. Qed.

(** A run on a board whose first section is the group of the card: the
    entry does not go under the heading that is there. *)
Example archive_into_first_section :
  archiveBlueCards cardInA true (Some twoSections)
  = Archived
      (twoSections ++ [LF] ++ [LF] ++ lit "## A" ++ [LF] ++ [LF]
       ++ lit "- [ ] new")
      (mkCanvasData [groupBox "A" 0 0 100 100] [] [])
      1.
Proof. vm_compute. reflexivity. Qed.

(** A blue card without text makes the run fail before anything is
    written. *)
Example archive_card_without_text :
  archiveBlueCards
    (mkCanvasData [sampleNode "text" 0 0 5 5 None (Some (lit "6")) None]
       [] [])
    true None
  = Failed.
Proof. reflexivity. Qed.

(* ================================================================= *)
(** * Further properties of the code *)

(* ================================================================= *)
(** ** Containment and the choice of a group *)

(** X1. Containment is transitive: a node inside a group that lies inside
    a second group is inside the second group. *)
Theorem isNodeInGroup_trans (node inner outer : CanvasNode) :
  isNodeInGroup node inner = true ->
  isNodeInGroup inner outer = true ->
  isNodeInGroup node outer = true.
Proof.
  rewrite !isNodeInGroup_iff. lia.
Qed.

Lemma isNodeInGroup_trans_witness :
  isNodeInGroup nestedCard (groupBox "Inner" 5 5 20 20) = true /\
  isNodeInGroup (groupBox "Inner" 5 5 20 20) (groupBox "Outer" 0 0 100 100)
  = true /\
  isNodeInGroup nestedCard (groupBox "Outer" 0 0 100 100) = true.
Proof.
  split; [reflexivity|]. split; [reflexivity|].
  apply (isNodeInGroup_trans nestedCard (groupBox "Inner" 5 5 20 20)
           (groupBox "Outer" 0 0 100 100)); reflexivity.
Defined.




(** The two kinds of answer of [findNodeGroup]. *)
Lemma findNodeGroup_cases (node : CanvasNode) (groups : list CanvasNode) :
  (findNodeGroup node groups = Some (lit "Uncategorized") /\
   forall g, In g groups -> isNodeInGroup node g = false)
  \/
  (exists g, In g groups /\ isNodeInGroup node g = true /\
             findNodeGroup node groups = label g).
Proof.
  destruct (filter (isNodeInGroup node) groups) as [|first rest] eqn:F.
  - left. split; [now apply findNodeGroup_none|].
    now apply filter_nil_all.
  - right.
    destruct (findNodeGroup_first_smallest node groups)
      as (before & g & after & -> & Hg & Hfind & _); [now rewrite F|].
    exists g. repeat split; try assumption. apply in_elt.
Qed.

(** X3. [findNodeGroup] answers ["Uncategorized"] when no group of the
    list contains the node (in particular for an empty list), and
    otherwise the label of a group of the list that contains the node. *)
Theorem findNodeGroup_range (node : CanvasNode) (groups : list CanvasNode) :
  (findNodeGroup node groups = Some (lit "Uncategorized") /\
   forall g, In g groups -> isNodeInGroup node g = false)
  \/
  (exists g, In g groups /\ isNodeInGroup node g = true /\
             findNodeGroup node groups = label g).
Proof. exact (findNodeGroup_cases node groups). Qed.

(** X4. The earlier [findNodeGroup] answers ["Uncategorized"] when no
    group of the list contains the node, and otherwise the label of the
    first group of the list that contains it, whatever the areas. *)
Theorem earlier_findNodeGroup_first (node : CanvasNode)
  (groups : list CanvasNode) :
  (Earlier.findNodeGroup node groups = Some (lit "Uncategorized") /\
   forall g, In g groups -> isNodeInGroup node g = false)
  \/
  (exists before g after,
      groups = before ++ g :: after /\
      isNodeInGroup node g = true /\
      (forall h, In h before -> isNodeInGroup node h = false) /\
      Earlier.findNodeGroup node groups = label g).
Proof.
  induction groups as [|g groups IH].
  - left. split; [reflexivity|intros g []].
  - simpl. destruct (isNodeInGroup node g) eqn:Hg.
    + right. exists [], g, groups. repeat split; auto. intros h [].
    + destruct IH as [[Hu Hnone]|(before & g' & after & -> & Hg' & Hb & Hf)].
      * left. split; [assumption|]. intros h [<-|Hh]; auto.
      * right. exists (g :: before), g', after. repeat split; auto.
        intros h [<-|Hh]; auto.
Qed.

(* ================================================================= *)
(** ** Looking up the resolver's map *)

Lemma get_of_In {V : Type} (m : Map V) (k : value) (v : V) :
  NoDup (keys m) -> In (k, v) m -> get m k = Some v.
Proof.
  intros Hnd Hin. destruct (in_split _ _ Hin) as (m1 & m2 & ->).
  apply get_middle. unfold keys in Hnd. rewrite map_app in Hnd.
  apply NoDup_remove_2 in Hnd. intros H. apply Hnd.
  apply in_or_app. now left.
Qed.

Lemma In_keys_entry {V : Type} (m : Map V) (k : value) :
  In k (keys m) -> exists v, In (k, v) m.
Proof.
  unfold keys. intros H. apply in_map_iff in H as ([k' v] & E & Hin).
  simpl in E. subst k'. now exists v.
Qed.

(** Every card added to the map is found under its group name. *)
Lemma resolve_entry (blueCards groupNodes : list CanvasNode)
  (card : CanvasNode) :
  In card blueCards ->
  exists cs,
    In (findNodeGroup card groupNodes, cs) (resolve blueCards groupNodes) /\
    In card cs.
Proof.
  intros Hcard.
  destruct (resolve_Grouped groupNodes blueCards) as (Hkeys & Hlists & _).
  assert (Hk : In (findNodeGroup card groupNodes)
                 (keys (resolve blueCards groupNodes))).
  { rewrite Hkeys, firstOccurrences_In. apply in_map_iff. now exists card. }
  destruct (In_keys_entry _ _ Hk) as [cs Hcs].
  exists cs. split; [assumption|].
  destruct (Hlists _ _ Hcs) as [-> _]. apply filter_In.
  split; [assumption|apply value_eqb_refl].
Qed.

(** X5. Looking up the group name of a candidate in the resolver's map
    gives a list that holds the candidate, namely the candidates of that
    group name in input order. *)
Theorem resolve_lookup (blueCards groupNodes : list CanvasNode)
  (card : CanvasNode) :
  In card blueCards ->
  exists cs,
    get (resolve blueCards groupNodes) (findNodeGroup card groupNodes)
    = Some cs /\
    has (resolve blueCards groupNodes) (findNodeGroup card groupNodes)
    = true /\
    In card cs /\
    cs = filter (fun c => value_eqb (findNodeGroup c groupNodes)
                            (findNodeGroup card groupNodes)) blueCards.
Proof.
  intros Hcard.
  destruct (resolve_entry blueCards groupNodes card Hcard) as (cs & Hin & Hc).
  pose proof (resolve_Grouped groupNodes blueCards) as G.
  pose proof (Grouped_NoDup _ _ _ G) as Hnd.
  destruct G as (_ & Hlists & _).
  exists cs. repeat split.
  - now apply get_of_In.
  - apply has_In. unfold keys. apply in_map_iff.
    now exists (findNodeGroup card groupNodes, cs).
  - assumption.
  - exact (proj1 (Hlists _ _ Hin)).
Qed.

Lemma resolve_lookup_witness :
  In (blueCard 200 200 (lit "two")) (filter isBlueCard (nodes backlogCanvas))
  /\
  exists cs,
    get (resolve (filter isBlueCard (nodes backlogCanvas))
           (filter isGroup (nodes backlogCanvas)))
      (findNodeGroup (blueCard 200 200 (lit "two"))
         (filter isGroup (nodes backlogCanvas)))
    = Some cs /\
    has (resolve (filter isBlueCard (nodes backlogCanvas))
           (filter isGroup (nodes backlogCanvas)))
      (findNodeGroup (blueCard 200 200 (lit "two"))
         (filter isGroup (nodes backlogCanvas)))
    = true /\
    In (blueCard 200 200 (lit "two")) cs /\
    cs = filter (fun c => value_eqb
                            (findNodeGroup c
                               (filter isGroup (nodes backlogCanvas)))
                            (findNodeGroup (blueCard 200 200 (lit "two"))
                               (filter isGroup (nodes backlogCanvas))))
           (filter isBlueCard (nodes backlogCanvas)).
Proof.
  assert (H : In (blueCard 200 200 (lit "two"))
                (filter isBlueCard (nodes backlogCanvas)))
    by (simpl; auto).
  split; [exact H|].
  exact (resolve_lookup (filter isBlueCard (nodes backlogCanvas))
           (filter isGroup (nodes backlogCanvas))
           (blueCard 200 200 (lit "two")) H).
Defined.

(** X6. No list of the resolver's map is empty, and every key of the map
    is the group name of some candidate: ["Uncategorized"], or the label of
    a group of the list that contains that candidate. *)
Theorem resolve_keys (blueCards groupNodes : list CanvasNode) (k : value)
  (cs : list CanvasNode) :
  In (k, cs) (resolve blueCards groupNodes) ->
  cs <> [] /\
  (exists card, In card blueCards /\ findNodeGroup card groupNodes = k /\
                (k = Some (lit "Uncategorized") \/
                 exists g, In g groupNodes /\ isNodeInGroup card g = true /\
                           label g = k)).
Proof.
  intros Hin.
  destruct (resolve_Grouped groupNodes blueCards) as (_ & Hlists & _).
  destruct (Hlists k cs Hin) as [Hcs Hne]. split; [assumption|].
  destruct cs as [|card cs']; [congruence|].
  assert (Hc : In card (card :: cs')) by now left.
  rewrite Hcs in Hc. apply filter_In in Hc as [Hc Hk].
  apply value_eqb_eq in Hk.
  exists card. repeat split; try assumption.
  destruct (findNodeGroup_cases card groupNodes)
    as [[Hu _]|(g & Hg & Hcont & Hl)].
  - left. congruence.
  - right. exists g. repeat split; try assumption. congruence.
Qed.

Lemma resolve_keys_witness :
  In (Some (lit "Backlog"), [blueCard 10 10 (lit "one")])
    (resolve (filter isBlueCard (nodes backlogCanvas))
       (filter isGroup (nodes backlogCanvas))) /\
  [blueCard 10 10 (lit "one")] <> [] /\
  (exists card,
      In card (filter isBlueCard (nodes backlogCanvas)) /\
      findNodeGroup card (filter isGroup (nodes backlogCanvas))
      = Some (lit "Backlog") /\
      (Some (lit "Backlog") = Some (lit "Uncategorized") \/
       exists g, In g (filter isGroup (nodes backlogCanvas)) /\
                 isNodeInGroup card g = true /\
                 label g = Some (lit "Backlog"))).
Proof.
  assert (H : In (Some (lit "Backlog"), [blueCard 10 10 (lit "one")])
                (resolve (filter isBlueCard (nodes backlogCanvas))
                   (filter isGroup (nodes backlogCanvas))))
    by (vm_compute; auto).
  split; [exact H|].
  exact (resolve_keys (filter isBlueCard (nodes backlogCanvas))
           (filter isGroup (nodes backlogCanvas)) (Some (lit "Backlog"))
           [blueCard 10 10 (lit "one")] H).
Defined.

(* ================================================================= *)
(** ** The lines of the merged document *)

Section MergedLines.

Lemma split_app_sep (c : N) (a r : str) :
  split c (a ++ c :: r) = split c a ++ split c r.
Proof.
  induction a as [|d a IH]; simpl.
  - now rewrite N.eqb_refl.
  - destruct (d =? c)%N; rewrite IH.
    + reflexivity.
    + destruct (split c a) as [|l ls] eqn:S;
        [now destruct (split_not_nil _ _ S)|reflexivity].
Qed.

(** The lines of a joined array are the lines of its elements. *)
Lemma split_join_flat (ls : list str) :
  forall a, split LF (join [LF] (a :: ls)) = flat_map (split LF) (a :: ls).
Proof.
  induction ls as [|l ls IH]; intros a.
  - simpl. now rewrite !app_nil_r.
  - change (join [LF] (a :: l :: ls)) with (a ++ ([LF] ++ l) ++ joined ls).
    rewrite <- app_assoc.
    change ([LF] ++ l ++ joined ls) with (LF :: join [LF] (l :: ls)).
    rewrite split_app_sep, IH. reflexivity.
Qed.

Lemma split_lines_no_sep (c : N) (s : str) :
  Forall (fun l => ~ In c l) (split c s).
Proof.
  induction s as [|d s IH]; simpl.
  - constructor; [intros []|constructor].
  - destruct (d =? c)%N eqn:E.
    + constructor; [intros []|assumption].
    + destruct (split c s) as [|l ls]; [repeat constructor|].
      * intros [->|[]]. now rewrite N.eqb_refl in E.
      * inversion IH as [|? ? Hl Hls]; subst. constructor; [|assumption].
        intros [->|H]; [now rewrite N.eqb_refl in E|auto].
Qed.

Lemma flat_map_split_id (X : list str) :
  Forall (fun l => ~ In LF l) X -> flat_map (split LF) X = X.
Proof.
  induction 1 as [|l X Hl _ IH]; simpl; [reflexivity|].
  now rewrite (split_no_sep LF l Hl), IH.
Qed.

Lemma cardLines_In (cards : list CanvasNode) :
  forall es card,
    cardLines cards = Some es -> In card cards ->
    exists entry, cardLine card = Some entry /\ In entry es.
Proof.
  induction cards as [|c cards IH]; simpl; intros es card H Hin;
    [destruct Hin|].
  destruct (cardLine c) as [e|] eqn:E; [|discriminate].
  destruct (cardLines cards) as [es'|]; [|discriminate].
  apply some_eq in H. subst es. destruct Hin as [->|Hin].
  - exists e. split; [assumption|now left].
  - destruct (IH es' card eq_refl Hin) as (entry & He & Hi).
    exists entry. split; [assumption|now right].
Qed.

Lemma newSections_In (m : Map (list CanvasNode)) :
  forall ls k cs,
    newSections m = Some ls -> In (k, cs) m ->
    exists es, cardLines cs = Some es /\ incl es ls.
Proof.
  induction m as [|[group cards] m IH]; simpl; intros ls k cs H Hin;
    [destruct Hin|].
  destruct (cardLines cards) as [newLines|] eqn:C; [|discriminate].
  destruct (newSections m) as [more|]; [|discriminate].
  apply some_eq in H. subst ls. destruct Hin as [Hin|Hin].
  - injection Hin as -> ->. exists newLines. split; [assumption|].
    intros e He. right. apply in_or_app. now left.
  - destruct (IH more k cs eq_refl Hin) as (es & Hes & Hincl).
    exists es. split; [assumption|].
    intros e He. right. apply in_or_app. right. now apply Hincl.
Qed.

Lemma In_delete_other {V : Type} (m : Map V) (k k' : value) (v : V) :
  In (k', v) m -> k' <> k -> In (k', v) (delete m k).
Proof.
  intros Hin Hne. unfold delete. apply filter_In. split; [assumption|].
  unfold keyIs. simpl. apply negb_true_iff, value_eqb_neq, Hne.
Qed.

(** The array that is joined into the merged document. *)
Lemma merge_elements (existing : option str) (m : Map (list CanvasNode))
  (out : str) :
  merge existing m = Some out ->
  (exists ls,
      newSections m = Some ls /\
      out = join [LF] (split LF (initialContent existing) ++ ls))
  \/
  (exists A h B cards newLines ls,
      split LF (initialContent existing) = A ++ h :: B /\
      isHeading h = true /\
      Forall (fun l => isHeading l = false) B /\
      get m (Some (headingName h)) = Some cards /\
      cardLines cards = Some newLines /\
      newSections (delete m (Some (headingName h))) = Some ls /\
      out = join [LF] (A ++ h :: newLines ++ B ++ ls)).
Proof.
  intros Hm.
  destruct (merge_cases existing m)
    as (r & E & [H|(A & h & B & cards & ES & _ & Hh & HB & Hget & H)]);
    rewrite H in Hm; rewrite E, split_header.
  - left. destruct (newSections m) as [ls|]; [|discriminate].
    apply some_eq in Hm. exists ls. auto.
  - right. destruct (cardLines cards) as [newLines|] eqn:C; [|discriminate].
    destruct (newSections _) as [ls|] eqn:S; [|discriminate].
    apply some_eq in Hm.
    exists (headerLines ++ A), h, B, cards, newLines, ls.
    rewrite ES, <- app_assoc. repeat split; try assumption.
    rewrite <- Hm.
    repeat (rewrite <- app_assoc || rewrite <- app_comm_cons). reflexivity.
Qed.

(** A card of the map has its entry among the elements that are joined. *)
Lemma merge_writes_card (existing : option str) (m : Map (list CanvasNode))
  (out : str) (k : value) (cs : list CanvasNode) (card : CanvasNode) :
  NoDup (keys m) -> merge existing m = Some out ->
  In (k, cs) m -> In card cs ->
  exists entry, cardLine card = Some entry /\ In entry (split LF out).
Proof.
  intros Hnd Hm Hin Hcard.
  assert (Hline : forall entry a F,
            cardLine card = Some entry -> In entry (a :: F) ->
            In entry (split LF (join [LF] (a :: F)))).
  { intros entry a F He Hi. rewrite split_join_flat. apply in_flat_map.
    exists entry. split; [assumption|].
    pose proof (cardLines_no_LF [card] [entry]) as Hno.
    simpl in Hno. rewrite He in Hno. specialize (Hno eq_refl).
    inversion Hno as [|? ? Hn _]; subst.
    rewrite split_no_sep by assumption. now left. }
  destruct (merge_elements existing m out Hm)
    as [(ls & Hls & ->)
       |(A & h & B & cards & newLines & ls & ES & Hh & _ & Hget & Hc & Hls
         & ->)].
  - destruct (newSections_In m ls k cs Hls Hin) as (es & Hes & Hincl).
    destruct (cardLines_In cs es card Hes Hcard) as (entry & He & Hi).
    exists entry. split; [assumption|].
    destruct (split LF (initialContent existing)) as [|a F] eqn:S;
      [now destruct (split_not_nil _ _ S)|].
    apply Hline; [assumption|]. right. apply in_or_app. right. auto.
  - destruct (value_eqb k (Some (headingName h))) eqn:Ek.
    + apply value_eqb_eq in Ek. subst k.
      rewrite (get_of_In m _ cs Hnd Hin) in Hget.
      apply some_eq in Hget. subst cards.
      destruct (cardLines_In cs newLines card Hc Hcard) as (entry & He & Hi).
      exists entry. split; [assumption|].
      destruct A as [|a A]; simpl app; apply Hline; try assumption.
      * right. apply in_or_app. now left.
      * right. apply in_or_app. right. right. apply in_or_app. now left.
    + apply value_eqb_neq in Ek.
      pose proof (In_delete_other m (Some (headingName h)) k cs Hin Ek) as Hd.
      destruct (newSections_In _ ls k cs Hls Hd) as (es & Hes & Hincl).
      destruct (cardLines_In cs es card Hes Hcard) as (entry & He & Hi).
      exists entry. split; [assumption|].
      destruct A as [|a A]; simpl app; apply Hline; try assumption.
      * right. apply in_or_app. right. apply in_or_app. right. auto.
      * right. apply in_or_app. right. right. apply in_or_app. right.
        apply in_or_app. right. auto.
Qed.

(** The merge fails when a card of the map has no text. *)
Lemma merge_fails_if (existing : option str) (m : Map (list CanvasNode))
  (k : value) (cs : list CanvasNode) (card : CanvasNode) :
  NoDup (keys m) -> In (k, cs) m -> In card cs -> text card = None ->
  merge existing m = None.
Proof.
  intros Hnd Hin Hcard Htext.
  destruct (merge existing m) as [out|] eqn:Hm; [|reflexivity].
  destruct (merge_writes_card existing m out k cs card Hnd Hm Hin Hcard)
    as (entry & He & _).
  unfold cardLine in He. rewrite Htext in He. discriminate.
Qed.

End MergedLines.

Lemma split_join_nonempty (F : list str) :
  F <> [] -> split LF (join [LF] F) = flat_map (split LF) F.
Proof. destruct F as [|a F]; [congruence|]. intros _. apply split_join_flat. Qed.

(** X7. The merge keeps every line of the document it starts from, in
    order: the lines of the merged document are those lines, with at most
    one run of lines inserted, directly after a heading line, and with
    lines appended at the end. *)
Theorem merge_keeps_document_lines (existing : option str)
  (m : Map (list CanvasNode)) (out : str) :
  merge existing m = Some out ->
  exists before after inserted appended,
    split LF (initialContent existing) = before ++ after /\
    split LF out = before ++ inserted ++ after ++ appended /\
    (inserted = [] \/
     exists before' h, before = before' ++ [h] /\ isHeading h = true).
Proof.
  intros Hm.
  pose proof (split_lines_no_sep LF (initialContent existing)) as Hno.
  destruct (merge_elements existing m out Hm)
    as [(ls & Hls & ->)
       |(A & h & B & cards & newLines & ls & ES & Hh & _ & Hget & Hc & Hls
         & ->)].
  - exists (split LF (initialContent existing)), [], [],
      (flat_map (split LF) ls).
    rewrite split_join_nonempty.
    2:{ intros E. apply app_eq_nil in E as [E _].
        exact (split_not_nil _ _ E). }
    rewrite flat_map_app, flat_map_split_id by assumption.
    rewrite app_nil_r. repeat split. now left.
  - rewrite ES in Hno. apply Forall_app in Hno as [HA HhB].
    inversion HhB as [|? ? Hhn HB]; subst.
    exists (A ++ [h]), B, newLines, (flat_map (split LF) ls).
    rewrite split_join_nonempty by (destruct A; discriminate).
    rewrite ES. split; [now rewrite <- app_assoc|]. split.
    + rewrite flat_map_app. cbn [flat_map].
      rewrite !flat_map_app.
      rewrite (flat_map_split_id A HA), (flat_map_split_id B HB).
      rewrite (flat_map_split_id newLines (cardLines_no_LF _ _ Hc)).
      rewrite (split_no_sep LF h Hhn).
      now repeat (rewrite <- app_assoc; cbn [app]).
    + right. exists A, h. auto.
Qed.

Lemma merge_keeps_document_lines_witness :
  merge (Some todoDocument) [(Some (lit "Todo"), [newCard])]
  = Some (HEADER ++ lit "## Todo" ++ [LF] ++ lit "- [ ] new" ++ [LF]
          ++ lit "- [ ] existing" ++ [LF]) /\
  exists before after inserted appended,
    split LF (initialContent (Some todoDocument)) = before ++ after /\
    split LF (HEADER ++ lit "## Todo" ++ [LF] ++ lit "- [ ] new" ++ [LF]
              ++ lit "- [ ] existing" ++ [LF])
    = before ++ inserted ++ after ++ appended /\
    (inserted = [] \/
     exists before' h, before = before' ++ [h] /\ isHeading h = true).
Proof.
  assert (H : merge (Some todoDocument) [(Some (lit "Todo"), [newCard])]
              = Some (HEADER ++ lit "## Todo" ++ [LF] ++ lit "- [ ] new"
                      ++ [LF] ++ lit "- [ ] existing" ++ [LF]))
    by (vm_compute; reflexivity).
  split; [exact H|].
  exact (merge_keeps_document_lines (Some todoDocument)
           [(Some (lit "Todo"), [newCard])] _ H).
Defined.

(* ================================================================= *)
(** ** Whole runs: outcomes, counts and repetition *)

(** What an [Archived] outcome tells about the run. *)
Lemma archive_Archived_inv (canvasData : CanvasData) (hasParent : bool)
  (existing : option str) (content : str) (updated : CanvasData)
  (count : nat) :
  archiveBlueCards canvasData hasParent existing
  = Archived content updated count ->
  filter isBlueCard (nodes canvasData) <> [] /\
  hasParent = true /\
  merge existing
    (resolve (filter isBlueCard (nodes canvasData))
       (filter isGroup (nodes canvasData))) = Some content /\
  updated = mkCanvasData
              (filter (fun node => negb (isBlueCard node))
                 (nodes canvasData))
              (edges canvasData) (metadata canvasData) /\
  count = length (filter isBlueCard (nodes canvasData)).
Proof.
  unfold archiveBlueCards.
  destruct (length (filter isBlueCard (nodes canvasData)) =? 0)%nat eqn:E0;
    [discriminate|].
  destruct hasParent; cbn [negb]; [|discriminate].
  destruct (merge existing _) as [kanbanContent|]; [|discriminate].
  intros H. injection H as <- <- <-.
  apply Nat.eqb_neq in E0. repeat split.
  intros E. rewrite E in E0. now apply E0.
Qed.

(** X8. A run that writes the archive file writes the entry of every blue
    card of the canvas as a line of that file. *)
Theorem archive_writes_every_card (canvasData : CanvasData)
  (hasParent : bool) (existing : option str) (content : str)
  (updated : CanvasData) (count : nat) (card : CanvasNode) :
  archiveBlueCards canvasData hasParent existing
  = Archived content updated count ->
  In card (nodes canvasData) -> isBlueCard card = true ->
  exists entry, cardLine card = Some entry /\ In entry (split LF content).
Proof.
  intros Hrun Hin Hblue.
  destruct (archive_Archived_inv _ _ _ _ _ _ Hrun) as (_ & _ & Hm & _ & _).
  assert (Hcard : In card (filter isBlueCard (nodes canvasData)))
    by (apply filter_In; auto).
  destruct (resolve_entry _ (filter isGroup (nodes canvasData)) card Hcard)
    as (cs & Hcs & Hc).
  pose proof (Grouped_NoDup _ _ _
                (resolve_Grouped (filter isGroup (nodes canvasData))
                   (filter isBlueCard (nodes canvasData)))) as Hnd.
  exact (merge_writes_card existing _ content _ cs card Hnd Hm Hcs Hc).
Qed.

Lemma archive_writes_every_card_witness :
  archiveBlueCards cardInA true (Some twoSections)
  = Archived
      (twoSections ++ [LF] ++ [LF] ++ lit "## A" ++ [LF] ++ [LF]
       ++ lit "- [ ] new")
      (mkCanvasData [groupBox "A" 0 0 100 100] [] []) 1 /\
  In (blueCard 10 10 (lit "new")) (nodes cardInA) /\
  isBlueCard (blueCard 10 10 (lit "new")) = true /\
  exists entry,
    cardLine (blueCard 10 10 (lit "new")) = Some entry /\
    In entry (split LF (twoSections ++ [LF] ++ [LF] ++ lit "## A" ++ [LF]
                        ++ [LF] ++ lit "- [ ] new")).
Proof.
  assert (H1 : archiveBlueCards cardInA true (Some twoSections)
               = Archived
                   (twoSections ++ [LF] ++ [LF] ++ lit "## A" ++ [LF]
                    ++ [LF] ++ lit "- [ ] new")
                   (mkCanvasData [groupBox "A" 0 0 100 100] [] []) 1)
    by (vm_compute; reflexivity).
  assert (H2 : In (blueCard 10 10 (lit "new")) (nodes cardInA))
    by (simpl; auto).
  assert (H3 : isBlueCard (blueCard 10 10 (lit "new")) = true)
    by reflexivity.
  split; [exact H1|]. split; [exact H2|]. split; [exact H3|].
  exact (archive_writes_every_card cardInA true (Some twoSections) _ _ _
           (blueCard 10 10 (lit "new")) H1 H2 H3).
Defined.

(** X9. The outcome of a run is decided by three facts: there is no blue
    card (the run stops and writes nothing); there is one, and the canvas
    file has no parent folder or some blue card has no text (the run fails
    and writes nothing); or there is one, the parent folder is known and
    every blue card has a text (the run writes the archive and the canvas
    without its blue cards, and counts them). *)
Theorem archiveBlueCards_outcome (canvasData : CanvasData)
  (hasParent : bool) (existing : option str) :
  (filter isBlueCard (nodes canvasData) = [] /\
   archiveBlueCards canvasData hasParent existing = NoBlueCards)
  \/
  (filter isBlueCard (nodes canvasData) <> [] /\
   (hasParent = false \/
    exists card, In card (nodes canvasData) /\ isBlueCard card = true /\
                 text card = None) /\
   archiveBlueCards canvasData hasParent existing = Failed)
  \/
  (filter isBlueCard (nodes canvasData) <> [] /\
   hasParent = true /\
   (forall card, In card (nodes canvasData) -> isBlueCard card = true ->
                 text card <> None) /\
   exists content,
     archiveBlueCards canvasData hasParent existing
     = Archived content
         (mkCanvasData
            (filter (fun node => negb (isBlueCard node)) (nodes canvasData))
            (edges canvasData) (metadata canvasData))
         (length (filter isBlueCard (nodes canvasData)))).
Proof.
  unfold archiveBlueCards.
  destruct (length (filter isBlueCard (nodes canvasData)) =? 0)%nat eqn:E0.
  - left. apply Nat.eqb_eq, length_zero_iff_nil in E0. auto.
  - right. apply Nat.eqb_neq in E0.
    assert (Hne : filter isBlueCard (nodes canvasData) <> []).
    { intros E. rewrite E in E0. now apply E0. }
    pose proof (Grouped_NoDup _ _ _
                  (resolve_Grouped (filter isGroup (nodes canvasData))
                     (filter isBlueCard (nodes canvasData)))) as Hnd.
    destruct hasParent; cbn [negb]; [|left; auto].
    destruct (merge existing _) as [content|] eqn:M.
    + right. repeat split; try assumption; [|now exists content].
      intros card Hin Hblue Htext.
      assert (Hcard : In card (filter isBlueCard (nodes canvasData)))
        by (apply filter_In; auto).
      destruct (resolve_entry _ (filter isGroup (nodes canvasData)) card
                  Hcard) as (cs & Hcs & Hc).
      rewrite (merge_fails_if existing _ _ cs card Hnd Hcs Hc Htext) in M.
      discriminate.
    + left. repeat split; try assumption. right.
      destruct (merge_total _ _ M) as (k & cards & card & Hin & Hc & Hn).
      destruct (resolve_Grouped (filter isGroup (nodes canvasData))
                  (filter isBlueCard (nodes canvasData)))
        as (_ & Hlists & _).
      destruct (Hlists k cards Hin) as [Hcards _].
      rewrite Hcards in Hc. apply filter_In in Hc as [Hc _].
      apply filter_In in Hc as [Hc Hblue].
      exists card. auto.
Qed.

Lemma filter_length_split {A : Type} (f : A -> bool) (l : list A) :
  length l
  = (length (filter (fun a => negb (f a)) l) + length (filter f l))%nat.
Proof.
  induction l as [|a l IH]; simpl; [reflexivity|].
  destruct (f a); simpl; lia.
Qed.

(** X10. The number of cards a run reports is the number of nodes it
    removes from the canvas: the canvas it writes has that many nodes fewer
    than the canvas it read. *)
Theorem archive_count_removed (canvasData : CanvasData) (hasParent : bool)
  (existing : option str) (content : str) (updated : CanvasData)
  (count : nat) :
  archiveBlueCards canvasData hasParent existing
  = Archived content updated count ->
  length (nodes canvasData) = (length (nodes updated) + count)%nat /\
  (0 < count)%nat.
Proof.
  intros Hrun.
  destruct (archive_Archived_inv _ _ _ _ _ _ Hrun)
    as (Hne & _ & _ & -> & ->).
  split; [apply filter_length_split|].
  destruct (filter isBlueCard (nodes canvasData)); [congruence|simpl; lia].
Qed.

Lemma archive_count_removed_witness :
  archiveBlueCards backlogCanvas true None
  = Archived
      (HEADER ++ [LF] ++ [LF] ++ lit "## Backlog" ++ [LF] ++ [LF]
       ++ lit "- [ ] one" ++ [LF] ++ [LF] ++ lit "## Uncategorized"
       ++ [LF] ++ [LF] ++ lit "- [ ] two")
      (mkCanvasData [groupBox "Backlog" 0 0 100 100] [] []) 2 /\
  length (nodes backlogCanvas)
  = (length (nodes (mkCanvasData [groupBox "Backlog" 0 0 100 100] [] []))
     + 2)%nat /\
  (0 < 2)%nat.
Proof.
  assert (H : archiveBlueCards backlogCanvas true None
              = Archived
                  (HEADER ++ [LF] ++ [LF] ++ lit "## Backlog" ++ [LF]
                   ++ [LF] ++ lit "- [ ] one" ++ [LF] ++ [LF]
                   ++ lit "## Uncategorized" ++ [LF] ++ [LF]
                   ++ lit "- [ ] two")
                  (mkCanvasData [groupBox "Backlog" 0 0 100 100] [] []) 2)
    by (vm_compute; reflexivity).
  split; [exact H|].
  exact (archive_count_removed backlogCanvas true None _ _ _ H).
Defined.

Lemma filter_filter_negb {A : Type} (f : A -> bool) (l : list A) :
  filter f (filter (fun a => negb (f a)) l) = [].
Proof.
  induction l as [|a l IH]; simpl; [reflexivity|].
  destruct (f a) eqn:F; simpl; [assumption|]. now rewrite F.
Qed.

(** X11. A run on the canvas that a run has written finds no blue card:
    it stops without writing, whatever the archive file holds by then. *)
Theorem archive_again_nothing (canvasData : CanvasData) (hasParent : bool)
  (existing : option str) (content : str) (updated : CanvasData)
  (count : nat) (hasParent' : bool) (existing' : option str) :
  archiveBlueCards canvasData hasParent existing
  = Archived content updated count ->
  archiveBlueCards updated hasParent' existing' = NoBlueCards.
Proof.
  intros Hrun.
  destruct (archive_Archived_inv _ _ _ _ _ _ Hrun) as (_ & _ & _ & -> & _).
  unfold archiveBlueCards. cbn [nodes].
  now rewrite filter_filter_negb.
Qed.

Lemma archive_again_nothing_witness :
  archiveBlueCards cardInA true (Some twoSections)
  = Archived
      (twoSections ++ [LF] ++ [LF] ++ lit "## A" ++ [LF] ++ [LF]
       ++ lit "- [ ] new")
      (mkCanvasData [groupBox "A" 0 0 100 100] [] []) 1 /\
  archiveBlueCards (mkCanvasData [groupBox "A" 0 0 100 100] [] []) true
    (Some (twoSections ++ [LF] ++ [LF] ++ lit "## A" ++ [LF] ++ [LF]
           ++ lit "- [ ] new"))
  = NoBlueCards.
Proof.
  assert (H : archiveBlueCards cardInA true (Some twoSections)
              = Archived
                  (twoSections ++ [LF] ++ [LF] ++ lit "## A" ++ [LF]
                   ++ [LF] ++ lit "- [ ] new")
                  (mkCanvasData [groupBox "A" 0 0 100 100] [] []) 1)
    by (vm_compute; reflexivity).
  split; [exact H|].
  exact (archive_again_nothing cardInA true (Some twoSections) _ _ _ true
           _ H).
Defined.

Lemma isGroup_not_blue (node : CanvasNode) :
  isGroup node = true -> isBlueCard node = false.
Proof.
  unfold isGroup, isBlueCard. intros H. apply str_eqb_eq in H. rewrite H.
  reflexivity.
Qed.

Lemma groups_not_filtered (l : list CanvasNode) :
  filter isGroup (filter (fun node => negb (isBlueCard node)) l)
  = filter isGroup l.
Proof.
  induction l as [|node l IH]; simpl; [reflexivity|].
  destruct (isGroup node) eqn:G.
  - rewrite (isGroup_not_blue node G). simpl. rewrite G. now f_equal.
  - destruct (isBlueCard node); simpl; [assumption|]. now rewrite G.
Qed.

(** X12. A run never removes a group from the canvas: the group nodes of
    the canvas it writes are the group nodes of the canvas it read, in the
    same order. *)
Theorem archive_keeps_groups (canvasData : CanvasData) (hasParent : bool)
  (existing : option str) (content : str) (updated : CanvasData)
  (count : nat) :
  archiveBlueCards canvasData hasParent existing
  = Archived content updated count ->
  filter isGroup (nodes updated) = filter isGroup (nodes canvasData).
Proof.
  intros Hrun.
  destruct (archive_Archived_inv _ _ _ _ _ _ Hrun) as (_ & _ & _ & -> & _).
  cbn [nodes]. apply groups_not_filtered.
Qed.

Lemma archive_keeps_groups_witness :
  archiveBlueCards backlogCanvas true None
  = Archived
      (HEADER ++ [LF] ++ [LF] ++ lit "## Backlog" ++ [LF] ++ [LF]
       ++ lit "- [ ] one" ++ [LF] ++ [LF] ++ lit "## Uncategorized"
       ++ [LF] ++ [LF] ++ lit "- [ ] two")
      (mkCanvasData [groupBox "Backlog" 0 0 100 100] [] []) 2 /\
  filter isGroup (nodes (mkCanvasData [groupBox "Backlog" 0 0 100 100] [] []))
  = filter isGroup (nodes backlogCanvas).
Proof.
  assert (H : archiveBlueCards backlogCanvas true None
              = Archived
                  (HEADER ++ [LF] ++ [LF] ++ lit "## Backlog" ++ [LF]
                   ++ [LF] ++ lit "- [ ] one" ++ [LF] ++ [LF]
                   ++ lit "## Uncategorized" ++ [LF] ++ [LF]
                   ++ lit "- [ ] two")
                  (mkCanvasData [groupBox "Backlog" 0 0 100 100] [] []) 2)
    by (vm_compute; reflexivity).
  split; [exact H|].
  exact (archive_keeps_groups backlogCanvas true None _ _ _ H).
Defined.

(* ================================================================= *)
(** ** Sections written by one run and read by the next *)

Section Rerun.

(** The merge with one more group, when no heading the walk meets bears
    the name of that group. *)
Lemma merge_fresh_general (existing : option str)
  (m1 m2 : Map (list CanvasNode)) (g : value) (cards : list CanvasNode)
  (newLines : list str) (base : str) :
  (forall line, In line (split LF (initialContent existing)) ->
                isHeading line = true -> Some (headingName line) <> g) ->
  cardLines cards = Some newLines ->
  merge existing (m1 ++ m2) = Some base ->
  exists pre post,
    base = pre ++ post /\
    merge existing (m1 ++ (g, cards) :: m2)
    = Some (pre ++ [LF] ++ headingElement g ++ joined newLines ++ post) /\
    (m2 = [] -> post = []).
Proof.
  intros Hfresh Hcards Hbase. unfold merge in *.
  destruct (walk_fresh m1 m2 g cards (split LF (initialContent existing))
              (split_not_nil _ _) Hfresh)
    as [[_ Hnone]|(X & r1 & r2 & c & i & c' & i' & HX & Hlast & -> & Hwalk)].
  - rewrite Hnone in Hbase. discriminate.
  - rewrite Hwalk in Hbase. cbn [contentLines groupedCards] in *.
    rewrite appendGroups_newSections, newSections_app in *.
    cbn [newSections]. rewrite Hcards.
    destruct (newSections r1) as [s1|]; [|discriminate].
    destruct (newSections r2) as [s2|] eqn:S2; [|discriminate].
    apply some_eq in Hbase. subst base.
    exists (join [LF] X ++ joined s1), (joined s2).
    rewrite !join_app by assumption.
    change (flat_map (fun e => [LF] ++ e)) with joined.
    unfold joined. rewrite !flat_map_app. cbn [flat_map].
    rewrite !flat_map_app. repeat rewrite <- app_assoc.
    split; [reflexivity|]. split; [reflexivity|].
    intros E. rewrite (Hlast E) in S2. simpl in S2.
    apply some_eq in S2. now subst s2.
Qed.

Lemma merge_fresh_single (existing : option str) (g : value)
  (cards : list CanvasNode) (newLines : list str) :
  (forall line, In line (split LF (initialContent existing)) ->
                isHeading line = true -> Some (headingName line) <> g) ->
  cardLines cards = Some newLines ->
  merge existing [(g, cards)]
  = Some (initialContent existing ++ [LF] ++ headingElement g
          ++ joined newLines).
Proof.
  intros Hfresh Hcards.
  destruct (merge_fresh_general existing [] [] g cards newLines
              (initialContent existing) Hfresh Hcards (merge_nil existing))
    as (pre & post & E & Hm & Hpost).
  rewrite (Hpost eq_refl), app_nil_r in *. subst pre. exact Hm.
Qed.

Lemma heading_line_name (g : str) :
  isHeading (lit "## " ++ g) = true /\ headingName (lit "## " ++ g) = trim g.
Proof.
  split; [apply startsWith_app|reflexivity].
Qed.

Lemma cardLines_not_heading (cards : list CanvasNode) :
  forall es, cardLines cards = Some es ->
             Forall (fun l => isHeading l = false) es.
Proof.
  induction cards as [|card cards IH]; simpl; intros es H.
  - apply some_eq in H. subst. constructor.
  - unfold cardLine in H. destruct (text card) as [body|]; [|discriminate].
    destruct (cardLines cards) as [ls|]; [|discriminate].
    apply some_eq in H. subst. constructor; [reflexivity|now apply IH].
Qed.

(** The lines of a section as one run appends it. *)
Lemma split_new_section (g : str) (es : list str) :
  ~ In LF g -> Forall (fun l => ~ In LF l) es ->
  split LF ([LF] ++ headingElement (Some g) ++ joined es)
  = [[]; []; lit "## " ++ g; []] ++ es.
Proof.
  intros Hg Hes.
  assert (Hh : ~ In LF (lit "## " ++ g)).
  { intros Hin. apply in_app_or in Hin as [Hin|Hin]; [|auto].
    vm_compute in Hin. intuition discriminate. }
  change ([[]; []; lit "## " ++ g; []] ++ es)
    with ([] :: ([[]; lit "## " ++ g; []] ++ es)).
  rewrite <- (split_join_lines ([[]; lit "## " ++ g; []] ++ es) []).
  - f_equal. unfold headingElement, join, joined, toStr.
    cbn [app flat_map]. now repeat (rewrite <- app_assoc; cbn [app]).
  - intros [].
  - repeat (constructor; [solve [auto | intros []]|]). exact Hes.
Qed.

(** No line of the header block is a heading, so a document that is only
    the header has no heading. *)
Lemma no_heading_in_new_file (line : str) :
  In line (split LF (initialContent None)) -> isHeading line = true -> False.
Proof.
  intros Hin Hh. pose proof (initialContent_headings None line Hin Hh) as H.
  simpl in H. destruct H as [<-|[]]. discriminate.
Qed.

End Rerun.

Section Trim.

Lemma trimStart_noLead (s : str) : noLead (trimStart s).
Proof.
  induction s as [|c s IH]; simpl; [exact I|].
  destruct (isWhiteSpace c) eqn:E; [exact IH|exact E].
Qed.

Lemma trimStart_fixed (s : str) : noLead s -> trimStart s = s.
Proof.
  destruct s as [|c s]; simpl; [reflexivity|]. now intros ->.
Qed.

Lemma trimStart_suffix (s : str) : exists p, s = p ++ trimStart s.
Proof.
  induction s as [|c s [p IH]]; simpl.
  - now exists [].
  - destruct (isWhiteSpace c).
    + exists (c :: p). simpl. now f_equal.
    + now exists [].
Qed.

Lemma noLead_prefix (u w : str) : noLead (u ++ w) -> u <> [] -> noLead u.
Proof. destruct u; [congruence|]. simpl. auto. Qed.

(** Trimming a trimmed string changes nothing. *)
Lemma trim_idempotent (s : str) : trim (trim s) = trim s.
Proof.
  unfold trim, trimEnd.
  set (t := trimStart s).
  set (v := trimStart (rev t)).
  assert (Hv : noLead v) by apply trimStart_noLead.
  assert (Hu : noLead (rev v)).
  { destruct (trimStart_suffix (rev t)) as [p E]. fold v in E.
    apply (f_equal (@rev N)) in E. rewrite rev_involutive, rev_app_distr in E.
    destruct (rev v) as [|c u] eqn:R; [exact I|].
    apply (noLead_prefix (c :: u) (rev p)); [|discriminate].
    rewrite <- E. apply trimStart_noLead. }
  rewrite (trimStart_fixed (rev v) Hu), rev_involutive.
  now rewrite (trimStart_fixed v Hv).
Qed.

Lemma headingName_trimmed (line : str) :
  trim (headingName line) = headingName line.
Proof. apply trim_idempotent. Qed.

End Trim.

(** X13. A merged document is stable: merging it again with no entries
    gives it back unchanged, whatever the first merge started from. *)
Theorem merge_output_stable (existing : option str)
  (m : Map (list CanvasNode)) (out : str) :
  merge existing m = Some out -> merge (Some out) [] = Some out.
Proof. exact (merge_then_empty existing m out). Qed.

Lemma merge_output_stable_witness :
  merge (Some todoDocument) [(Some (lit "Todo"), [newCard])]
  = Some (HEADER ++ lit "## Todo" ++ [LF] ++ lit "- [ ] new" ++ [LF]
          ++ lit "- [ ] existing" ++ [LF]) /\
  merge (Some (HEADER ++ lit "## Todo" ++ [LF] ++ lit "- [ ] new" ++ [LF]
               ++ lit "- [ ] existing" ++ [LF])) []
  = Some (HEADER ++ lit "## Todo" ++ [LF] ++ lit "- [ ] new" ++ [LF]
          ++ lit "- [ ] existing" ++ [LF]).
Proof.
  assert (H : merge (Some todoDocument) [(Some (lit "Todo"), [newCard])]
              = Some (HEADER ++ lit "## Todo" ++ [LF] ++ lit "- [ ] new"
                      ++ [LF] ++ lit "- [ ] existing" ++ [LF]))
    by (vm_compute; reflexivity).
  split; [exact H|].
  exact (merge_output_stable (Some todoDocument)
           [(Some (lit "Todo"), [newCard])] _ H).
Defined.

(** X14. When the last heading of the document is followed by at least one
    line and its name is a key of the map, the entries of that key are
    inserted directly after the heading line, before the lines that
    followed it, the key gets no new section, and the other groups are
    appended as new sections. *)
Theorem merge_into_last_section (existing : option str)
  (m : Map (list CanvasNode)) (r : str) (A B : list str) (h : str)
  (cards : list CanvasNode) :
  initialContent existing = HEADER ++ r ->
  split LF r = A ++ h :: B ->
  B <> [] -> isHeading h = true ->
  Forall (fun l => isHeading l = false) B ->
  get m (Some (headingName h)) = Some cards ->
  merge existing m
  = (newLines <- cardLines cards ;;
     ls <- newSections (delete m (Some (headingName h))) ;;
     Some (join [LF] (headerLines ++ A ++ h :: newLines ++ B ++ ls))).
Proof. exact (merge_last_section existing m r A B h cards). Qed.

Lemma merge_into_last_section_witness :
  initialContent (Some todoDocument) = HEADER ++ todoDocument /\
  split LF todoDocument
  = [] ++ lit "## Todo" :: [lit "- [ ] existing"; []] /\
  [lit "- [ ] existing"; []] <> [] /\
  isHeading (lit "## Todo") = true /\
  Forall (fun l => isHeading l = false) [lit "- [ ] existing"; []] /\
  get [(Some (lit "Todo"), [newCard])] (Some (headingName (lit "## Todo")))
  = Some [newCard] /\
  merge (Some todoDocument) [(Some (lit "Todo"), [newCard])]
  = (newLines <- cardLines [newCard] ;;
     ls <- newSections
             (delete [(Some (lit "Todo"), [newCard])]
                (Some (headingName (lit "## Todo")))) ;;
     Some (join [LF]
             (headerLines ++ [] ++ lit "## Todo"
              :: newLines ++ [lit "- [ ] existing"; []] ++ ls))).
Proof.
  assert (H1 : initialContent (Some todoDocument) = HEADER ++ todoDocument)
    by reflexivity.
  assert (H2 : split LF todoDocument
               = [] ++ lit "## Todo" :: [lit "- [ ] existing"; []])
    by reflexivity.
  assert (H3 : [lit "- [ ] existing"; []] <> []) by discriminate.
  assert (H4 : isHeading (lit "## Todo") = true) by reflexivity.
  assert (H5 : Forall (fun l => isHeading l = false)
                 [lit "- [ ] existing"; []])
    by (repeat constructor).
  assert (H6 : get [(Some (lit "Todo"), [newCard])]
                 (Some (headingName (lit "## Todo")))
               = Some [newCard]) by reflexivity.
  repeat (split; [assumption|]).
  exact (merge_into_last_section (Some todoDocument)
           [(Some (lit "Todo"), [newCard])] todoDocument []
           [lit "- [ ] existing"; []] (lit "## Todo") [newCard]
           H1 H2 H3 H4 H5 H6).
Defined.

(** X15. Two runs for the same group on a new archive file: the first
    writes the header and the section of the group; the second, reading
    that file, finds the heading, puts its entries directly under it, above
    the blank line and the entries of the first run, and writes no second
    heading.  The name of the group holds no line feed and no white space
    at either end. *)
Theorem merge_second_run_same_group (g : str)
  (cards1 cards2 : list CanvasNode) (es1 es2 : list str) :
  ~ In LF g -> trim g = g ->
  cardLines cards1 = Some es1 -> cardLines cards2 = Some es2 ->
  merge None [(Some g, cards1)]
  = Some (HEADER ++ [LF] ++ headingElement (Some g) ++ joined es1)
  /\
  merge (Some (HEADER ++ [LF] ++ headingElement (Some g) ++ joined es1))
    [(Some g, cards2)]
  = Some (HEADER ++ [LF; LF] ++ lit "## " ++ g ++ joined es2 ++ [LF]
          ++ joined es1).
Proof.
  intros Hg Htrim H1 H2. split.
  - apply (merge_fresh_single None (Some g) cards1 es1); [|assumption].
    intros line Hin Hh. destruct (no_heading_in_new_file line Hin Hh).
  - destruct (heading_line_name g) as [Hh Hname].
    assert (Hinit : initialContent
                      (Some (HEADER ++ [LF] ++ headingElement (Some g)
                             ++ joined es1))
                    = HEADER ++ [LF] ++ headingElement (Some g)
                      ++ joined es1).
    { unfold initialContent. now rewrite startsWith_app. }
    assert (Hsplit : split LF ([LF] ++ headingElement (Some g) ++ joined es1)
                     = [[]; []] ++ (lit "## " ++ g) :: [] :: es1).
    { apply split_new_section; [assumption|].
      exact (cardLines_no_LF cards1 es1 H1). }
    assert (HB : Forall (fun l => isHeading l = false) ([] :: es1)).
    { constructor; [reflexivity|].
      exact (cardLines_not_heading cards1 es1 H1). }
    assert (Hget : get [(Some g, cards2)]
                     (Some (headingName (lit "## " ++ g))) = Some cards2).
    { rewrite Hname, Htrim. unfold get. simpl find. unfold keyIs.
      cbn [fst]. now rewrite value_eqb_refl. }
    assert (Hne : [] :: es1 <> []) by discriminate.
    etransitivity;
      [exact (merge_last_section _ _ _ _ _ _ _ Hinit Hsplit Hne Hh HB Hget)|].
    rewrite H2, Hname, Htrim. unfold delete, keyIs. cbn [filter fst].
    rewrite value_eqb_refl. cbn [negb newSections]. f_equal.
    rewrite app_nil_r.
    change (headerLines ++ [[]; []] ++ (lit "## " ++ g) :: es2 ++ [] :: es1)
      with (headerLines
            ++ ([] :: [] :: (lit "## " ++ g) :: es2 ++ [] :: es1)).
    rewrite join_header by discriminate. f_equal.
    unfold join. cbn [app flat_map]. rewrite flat_map_app. cbn [flat_map].
    fold (joined es2) (joined es1).
    now repeat (rewrite <- app_assoc; cbn [app]).
Qed.

Lemma merge_second_run_same_group_witness :
  ~ In LF (lit "Todo") /\ trim (lit "Todo") = lit "Todo" /\
  cardLines [blueCard 0 0 (lit "a")] = Some [lit "- [ ] a"] /\
  cardLines [newCard] = Some [lit "- [ ] new"] /\
  merge None [(Some (lit "Todo"), [blueCard 0 0 (lit "a")])]
  = Some (HEADER ++ [LF] ++ headingElement (Some (lit "Todo"))
          ++ joined [lit "- [ ] a"])
  /\
  merge (Some (HEADER ++ [LF] ++ headingElement (Some (lit "Todo"))
               ++ joined [lit "- [ ] a"]))
    [(Some (lit "Todo"), [newCard])]
  = Some (HEADER ++ [LF; LF] ++ lit "## " ++ lit "Todo"
          ++ joined [lit "- [ ] new"] ++ [LF] ++ joined [lit "- [ ] a"]).
Proof.
  assert (H1 : ~ In LF (lit "Todo")) by (vm_compute; intuition discriminate).
  assert (H2 : trim (lit "Todo") = lit "Todo") by reflexivity.
  assert (H3 : cardLines [blueCard 0 0 (lit "a")] = Some [lit "- [ ] a"])
    by reflexivity.
  assert (H4 : cardLines [newCard] = Some [lit "- [ ] new"]) by reflexivity.
  repeat (split; [assumption|]).
  exact (merge_second_run_same_group (lit "Todo") [blueCard 0 0 (lit "a")]
           [newCard] [lit "- [ ] a"] [lit "- [ ] new"] H1 H2 H3 H4).
Defined.

Lemma texts_present (cards : list CanvasNode) :
  forall bodies, map text cards = map Some bodies ->
                 forall card, In card cards -> text card <> None.
Proof.
  induction cards as [|c cards IH]; intros [|b bodies] H card Hin;
    try discriminate; [destruct Hin|].
  simpl in H. injection H as Hc Hrest. destruct Hin as [<-|Hin].
  - rewrite Hc. discriminate.
  - exact (IH bodies Hrest card Hin).
Qed.

Lemma bodies_exist (cards : list CanvasNode) :
  (forall card, In card cards -> text card <> None) ->
  exists bodies, map text cards = map Some bodies.
Proof.
  induction cards as [|c cards IH]; intros H.
  - now exists [].
  - destruct IH as [bodies Hb]; [intros card Hc; apply H; now right|].
    destruct (text c) as [b|] eqn:T.
    + exists (b :: bodies). simpl. now rewrite T, Hb.
    + exfalso. apply (H c); [now left|assumption].
Qed.

(** X16. A blue card all of whose containing groups have no label gets the
    group name [undefined]; the grouped map holds it under the key
    [undefined]; and, since no heading name equals that key, the merge
    appends for that key a section headed [## undefined] with the entries
    of its cards, after the document and the new sections of the keys
    before it and before the new sections of the keys after it, whatever
    headings the document has. *)
Theorem unlabelled_group_section (blueCards groupNodes : list CanvasNode)
  (card : CanvasNode) (bodies : list str) (existing : option str) :
  In card blueCards ->
  filter (isNodeInGroup card) groupNodes <> [] ->
  (forall g, In g groupNodes -> isNodeInGroup card g = true ->
             label g = None) ->
  map text blueCards = map Some bodies ->
  findNodeGroup card groupNodes = None /\
  exists m1 cs m2 csBodies base pre r2 later,
    resolve blueCards groupNodes = m1 ++ (None, cs) :: m2 /\
    In card cs /\
    map text cs = map Some csBodies /\
    merge existing (m1 ++ m2) = Some base /\
    startsWith HEADER pre = true /\
    (r2 = m2 \/ exists k, r2 = delete m2 k) /\
    newSections r2 = Some later /\
    base = pre ++ joined later /\
    merge existing (resolve blueCards groupNodes)
    = Some (pre ++ [LF; LF] ++ lit "## undefined" ++ [LF]
            ++ joined
                 (map (fun body =>
                         lit "- [ ] " ++ replaceAll LF (lit "<br>") body)
                    csBodies)
            ++ joined later).
Proof.
  intros Hcard Hne Hlab Hbodies.
  assert (Hfind : findNodeGroup card groupNodes = None).
  { destruct (findNodeGroup_first_smallest card groupNodes Hne)
      as (before & g & after & -> & Hg & Hf & _).
    rewrite Hf. apply Hlab; [apply in_elt|assumption]. }
  split; [exact Hfind|].
  destruct (resolve_entry blueCards groupNodes card Hcard) as (cs & Hin & Hc).
  rewrite Hfind in Hin.
  destruct (in_split _ _ Hin) as (m1 & m2 & Er).
  destruct (resolve_Grouped groupNodes blueCards) as (_ & Hlists & _).
  pose proof (texts_present blueCards bodies Hbodies) as Htext.
  assert (Hsub : forall k cs' c, In (k, cs') (resolve blueCards groupNodes) ->
                                 In c cs' -> text c <> None).
  { intros k cs' c Hk Hc'. apply Htext.
    destruct (Hlists k cs' Hk) as [E _]. rewrite E in Hc'.
    apply filter_In in Hc'. tauto. }
  destruct (bodies_exist cs (fun c Hc' => Hsub None cs c Hin Hc'))
    as [csBodies Hcs].
  destruct (merge existing (m1 ++ m2)) as [base|] eqn:Hbase.
  2:{ exfalso.
      destruct (merge_total _ _ Hbase) as (k & cs' & c & Hk & Hc' & Hn).
      apply (Hsub k cs' c); [|assumption..].
      rewrite Er. apply in_app_or in Hk as [Hk|Hk];
        apply in_or_app; [now left|right; now right]. }
  assert (Hfresh : forall line,
             In line (split LF (initialContent existing)) ->
             isHeading line = true -> Some (headingName line) <> None)
    by (intros line _ _; discriminate).
  destruct (merge_fresh_place existing m1 m2 None cs _ base Hfresh
              (cardLines_of_bodies cs csBodies Hcs) Hbase)
    as (pre & r2 & later & Hpre & Hr2 & Hlater & _ & Eb & Hm & _).
  exists m1, cs, m2, csBodies, base, pre, r2, later.
  repeat (split; [assumption || reflexivity|]).
  rewrite Er. exact Hm.
Qed.

Lemma unlabelled_group_section_witness :
  In (blueCard 10 10 (lit "new")) (filter isBlueCard (nodes unlabelledCanvas))
  /\
  filter (isNodeInGroup (blueCard 10 10 (lit "new")))
    (filter isGroup (nodes unlabelledCanvas)) <> [] /\
  (forall g, In g (filter isGroup (nodes unlabelledCanvas)) ->
             isNodeInGroup (blueCard 10 10 (lit "new")) g = true ->
             label g = None) /\
  map text (filter isBlueCard (nodes unlabelledCanvas))
  = map Some [lit "new"] /\
  findNodeGroup (blueCard 10 10 (lit "new"))
    (filter isGroup (nodes unlabelledCanvas)) = None /\
  exists m1 cs m2 csBodies base pre r2 later,
    resolve (filter isBlueCard (nodes unlabelledCanvas))
      (filter isGroup (nodes unlabelledCanvas))
    = m1 ++ (None, cs) :: m2 /\
    In (blueCard 10 10 (lit "new")) cs /\
    map text cs = map Some csBodies /\
    merge (Some undefinedSection) (m1 ++ m2) = Some base /\
    startsWith HEADER pre = true /\
    (r2 = m2 \/ exists k, r2 = delete m2 k) /\
    newSections r2 = Some later /\
    base = pre ++ joined later /\
    merge (Some undefinedSection)
      (resolve (filter isBlueCard (nodes unlabelledCanvas))
         (filter isGroup (nodes unlabelledCanvas)))
    = Some (pre ++ [LF; LF] ++ lit "## undefined" ++ [LF]
            ++ joined
                 (map (fun body =>
                         lit "- [ ] " ++ replaceAll LF (lit "<br>") body)
                    csBodies)
            ++ joined later).
Proof.
  assert (H1 : In (blueCard 10 10 (lit "new"))
                 (filter isBlueCard (nodes unlabelledCanvas)))
    by (simpl; auto).
  assert (H2 : filter (isNodeInGroup (blueCard 10 10 (lit "new")))
                 (filter isGroup (nodes unlabelledCanvas)) <> [])
    by (vm_compute; discriminate).
  assert (H3 : forall g, In g (filter isGroup (nodes unlabelledCanvas)) ->
                         isNodeInGroup (blueCard 10 10 (lit "new")) g = true ->
                         label g = None).
  { intros g Hg _. simpl in Hg. destruct Hg as [<-|[]]. reflexivity. }
  assert (H4 : map text (filter isBlueCard (nodes unlabelledCanvas))
               = map Some [lit "new"]) by reflexivity.
  split; [exact H1|]. split; [exact H2|]. split; [exact H3|].
  split; [exact H4|].
  exact (unlabelled_group_section
           (filter isBlueCard (nodes unlabelledCanvas))
           (filter isGroup (nodes unlabelledCanvas))
           (blueCard 10 10 (lit "new")) [lit "new"] (Some undefinedSection)
           H1 H2 H3 H4).
Defined.

(** On the board [undefinedSection] the run writes a second section
    headed [## undefined]. *)
Example unlabelled_group_second_heading :
  archiveBlueCards unlabelledCanvas true (Some undefinedSection)
  = Archived
      (undefinedSection ++ [LF; LF] ++ lit "## undefined" ++ [LF; LF]
       ++ lit "- [ ] new")
      (mkCanvasData [sampleNode "group" 0 0 100 100 None None None] [] [])
      1.
Proof. vm_compute. reflexivity. Qed.

(** X17. A heading name is compared after trimming, a key of the map as it
    is: the cards of a group whose label begins or ends with white space
    are never put under a heading of the document, and a new section is
    appended for them at every run. *)
Theorem merge_untrimmed_label (existing : option str)
  (m1 m2 : Map (list CanvasNode)) (g : str) (cards : list CanvasNode)
  (newLines : list str) (base : str) :
  trim g <> g ->
  cardLines cards = Some newLines ->
  merge existing (m1 ++ m2) = Some base ->
  exists pre post,
    base = pre ++ post /\
    merge existing (m1 ++ (Some g, cards) :: m2)
    = Some (pre ++ [LF; LF] ++ lit "## " ++ g ++ [LF]
            ++ joined newLines ++ post) /\
    (m2 = [] -> post = []).
Proof.
  intros Htrim Hcards Hbase.
  assert (Hfresh : forall line,
             In line (split LF (initialContent existing)) ->
             isHeading line = true -> Some (headingName line) <> Some g).
  { intros line _ _ Heq. apply some_eq in Heq. apply Htrim.
    rewrite <- Heq. apply headingName_trimmed. }
  destruct (merge_fresh_general existing m1 m2 (Some g) cards newLines base
              Hfresh Hcards Hbase)
    as (pre & post & E & Hm & Hpost).
  exists pre, post. split; [exact E|]. split; [|exact Hpost].
  etransitivity; [exact Hm|]. unfold headingElement, toStr.
  now repeat (rewrite <- app_assoc; cbn [app]).
Qed.

Lemma merge_untrimmed_label_witness :
  trim (lit "A ") <> lit "A " /\
  cardLines [newCard] = Some [lit "- [ ] new"] /\
  merge (Some (HEADER ++ lit "## A " ++ [LF] ++ lit "- [ ] x" ++ [LF]))
    ([] ++ [])
  = Some (HEADER ++ lit "## A " ++ [LF] ++ lit "- [ ] x" ++ [LF]) /\
  exists pre post,
    HEADER ++ lit "## A " ++ [LF] ++ lit "- [ ] x" ++ [LF] = pre ++ post /\
    merge (Some (HEADER ++ lit "## A " ++ [LF] ++ lit "- [ ] x" ++ [LF]))
      ([] ++ (Some (lit "A "), [newCard]) :: [])
    = Some (pre ++ [LF; LF] ++ lit "## " ++ lit "A " ++ [LF]
            ++ joined [lit "- [ ] new"] ++ post) /\
    (([] : Map (list CanvasNode)) = [] -> post = []).
Proof.
  assert (H1 : trim (lit "A ") <> lit "A ") by (vm_compute; discriminate).
  assert (H2 : cardLines [newCard] = Some [lit "- [ ] new"]) by reflexivity.
  assert (H3 : merge (Some (HEADER ++ lit "## A " ++ [LF] ++ lit "- [ ] x"
                            ++ [LF])) ([] ++ [])
               = Some (HEADER ++ lit "## A " ++ [LF] ++ lit "- [ ] x"
                       ++ [LF])) by (vm_compute; reflexivity).
  split; [exact H1|]. split; [exact H2|]. split; [exact H3|].
  exact (merge_untrimmed_label
           (Some (HEADER ++ lit "## A " ++ [LF] ++ lit "- [ ] x" ++ [LF]))
           [] [] (lit "A ") [newCard] [lit "- [ ] new"] _ H1 H2 H3).
Defined.

(* ================================================================= *)
(** ** The merge of the earlier revision *)

Section EarlierMerge.

Lemma startsWith_app_l (p s t : str) :
  startsWith p s = true -> startsWith p (s ++ t) = true.
Proof.
  intros H. destruct (startsWith_inv p s H) as [r ->].
  rewrite <- app_assoc. apply startsWith_app.
Qed.

Lemma includes_app_l (s t p : str) :
  EarlierArchive.includes s p = true ->
  EarlierArchive.includes (s ++ t) p = true.
Proof.
  induction s as [|c s IH]; simpl.
  - intros H. destruct p; [|discriminate]. destruct t; reflexivity.
  - intros H. apply orb_true_iff in H as [H|H].
    + change (c :: s ++ t) with ((c :: s) ++ t).
      now rewrite (startsWith_app_l p (c :: s) t H).
    + rewrite (IH H). apply orb_true_r.
Qed.

Lemma includes_here (s p t : str) :
  EarlierArchive.includes (s ++ p ++ t) p = true.
Proof.
  induction s as [|c s IH].
  - simpl app. destruct (p ++ t) eqn:E; simpl.
    + destruct p; [reflexivity|discriminate].
    + rewrite <- E, startsWith_app. reflexivity.
  - simpl. rewrite IH. apply orb_true_r.
Qed.

Lemma withHeading_extends (c : str) (g : value) :
  (exists s, EarlierArchive.withHeading c g = c ++ s) /\
  EarlierArchive.includes (EarlierArchive.withHeading c g)
    (EarlierArchive.headingText g) = true.
Proof.
  unfold EarlierArchive.withHeading.
  destruct (EarlierArchive.includes c (EarlierArchive.headingText g)) eqn:I;
    cbn [negb].
  - split; [exists []; now rewrite app_nil_r|assumption].
  - split; [eexists; reflexivity|].
    replace (c ++ [LF] ++ lit "## " ++ toStr g ++ [LF; LF])
      with ((c ++ [LF]) ++ EarlierArchive.headingText g ++ [LF]).
    + apply includes_here.
    + unfold EarlierArchive.headingText.
      now repeat (rewrite <- app_assoc; cbn [app]).
Qed.

Lemma earlier_appendCards_spec (cards : list CanvasNode) :
  forall c c',
    EarlierArchive.appendCards c cards = Some c' ->
    (exists s, c' = c ++ s) /\
    forall card, In card cards ->
      exists entry, cardLine card = Some entry /\
                    EarlierArchive.includes c' (entry ++ [LF]) = true.
Proof.
  induction cards as [|card cards IH]; simpl; intros c c' H.
  - apply some_eq in H. subst. split; [exists []; now rewrite app_nil_r|].
    intros card [].
  - unfold EarlierArchive.appendCard in H.
    destruct (text card) as [body|] eqn:T; [|discriminate].
    destruct (IH _ _ H) as [[s Hs] Hcards]. split.
    + exists ((lit "- [ ] " ++ replaceAll LF (lit "<br>") body ++ [LF]) ++ s).
      rewrite Hs. now rewrite <- !app_assoc.
    + intros card' [<-|Hin]; [|now apply Hcards].
      exists (lit "- [ ] " ++ replaceAll LF (lit "<br>") body).
      split; [unfold cardLine; now rewrite T|].
      rewrite Hs.
      replace ((c ++ lit "- [ ] " ++ replaceAll LF (lit "<br>") body ++ [LF])
               ++ s)
        with (c ++ ((lit "- [ ] " ++ replaceAll LF (lit "<br>") body) ++ [LF])
              ++ s)
        by now rewrite <- !app_assoc.
      apply includes_here.
Qed.

Lemma earlier_appendGroups_spec (m : Map (list CanvasNode)) :
  forall c out,
    EarlierArchive.appendGroups c m = Some out ->
    (exists s, out = c ++ s) /\
    forall k cs, In (k, cs) m ->
      EarlierArchive.includes out (EarlierArchive.headingText k) = true /\
      forall card, In card cs ->
        exists entry, cardLine card = Some entry /\
                      EarlierArchive.includes out (entry ++ [LF]) = true.
Proof.
  induction m as [|[group cards] m IH]; simpl; intros c out H.
  - apply some_eq in H. subst. split; [exists []; now rewrite app_nil_r|].
    intros k cs [].
  - destruct (EarlierArchive.appendCards _ cards) as [c1|] eqn:C;
      [|discriminate].
    destruct (withHeading_extends c group) as [[s0 Hs0] Hh].
    destruct (earlier_appendCards_spec cards _ _ C) as [[s1 Hs1] Hcards].
    destruct (IH _ _ H) as [[s2 Hs2] Hrest]. split.
    + exists (s0 ++ s1 ++ s2). rewrite Hs2, Hs1, Hs0.
      now rewrite <- !app_assoc.
    + intros k cs [Hin|Hin]; [|now apply Hrest].
      injection Hin as <- <-. split.
      * rewrite Hs2, Hs1. now do 2 apply includes_app_l.
      * intros card Hc. destruct (Hcards card Hc) as (entry & He & Hi).
        exists entry. split; [assumption|].
        rewrite Hs2. now apply includes_app_l.
Qed.

Lemma earlier_appendCards_fails (cards : list CanvasNode) :
  forall c, EarlierArchive.appendCards c cards = None <->
            exists card, In card cards /\ text card = None.
Proof.
  induction cards as [|card cards IH]; simpl; intros c.
  - split; [discriminate|intros (card & [] & _)].
  - unfold EarlierArchive.appendCard.
    destruct (text card) as [body|] eqn:T.
    + rewrite IH. split.
      * intros (c' & Hc & Hn). exists c'. auto.
      * intros (c' & [<-|Hc] & Hn); [congruence|]. exists c'. auto.
    + split; [|reflexivity]. intros _. exists card. auto.
Qed.

Lemma earlier_appendGroups_fails (m : Map (list CanvasNode)) :
  forall c, EarlierArchive.appendGroups c m = None <->
            exists card, In card (concat (map snd m)) /\ text card = None.
Proof.
  induction m as [|[group cards] m IH]; simpl; intros c.
  - split; [discriminate|intros (card & [] & _)].
  - destruct (EarlierArchive.appendCards _ cards) as [c1|] eqn:C.
    + rewrite IH. split.
      * intros (card & Hc & Hn). exists card. split; [|assumption].
        apply in_or_app. now right.
      * intros (card & Hc & Hn). apply in_app_or in Hc as [Hc|Hc].
        -- assert (EarlierArchive.appendCards
                     (EarlierArchive.withHeading c group) cards = None)
             as E by (apply earlier_appendCards_fails; eauto).
           congruence.
        -- exists card. auto.
    + split; [|reflexivity]. intros _.
      apply earlier_appendCards_fails in C as (card & Hc & Hn).
      exists card. split; [|assumption]. apply in_or_app. now left.
Qed.

End EarlierMerge.

(** X18. The merge of the earlier revision only appends: the document it
    starts from (the archive file, after the header if that was missing)
    is a prefix of the document it writes. *)
Theorem earlier_merge_appends (existing : option str)
  (m : Map (list CanvasNode)) (out : str) :
  EarlierArchive.merge existing m = Some out ->
  exists suffix, out = initialContent existing ++ suffix.
Proof.
  intros H. exact (proj1 (earlier_appendGroups_spec m _ _ H)).
Qed.

Lemma earlier_merge_appends_witness :
  EarlierArchive.merge (Some twoSections) [(Some (lit "A"), [newCard])]
  = Some (twoSections ++ lit "- [ ] new" ++ [LF]) /\
  exists suffix,
    twoSections ++ lit "- [ ] new" ++ [LF]
    = initialContent (Some twoSections) ++ suffix.
Proof.
  assert (H : EarlierArchive.merge (Some twoSections)
                [(Some (lit "A"), [newCard])]
              = Some (twoSections ++ lit "- [ ] new" ++ [LF]))
    by (vm_compute; reflexivity).
  split; [exact H|].
  exact (earlier_merge_appends (Some twoSections)
           [(Some (lit "A"), [newCard])] _ H).
Defined.

(** X19. The document the earlier merge writes holds, for every group of
    the map, the heading of the group followed by a line feed, and, for
    every card of the group, the entry of the card followed by a line
    feed. *)
Theorem earlier_merge_holds_all (existing : option str)
  (m : Map (list CanvasNode)) (out : str) (k : value)
  (cs : list CanvasNode) :
  EarlierArchive.merge existing m = Some out ->
  In (k, cs) m ->
  EarlierArchive.includes out (lit "## " ++ toStr k ++ [LF]) = true /\
  forall card, In card cs ->
    exists entry, cardLine card = Some entry /\
                  EarlierArchive.includes out (entry ++ [LF]) = true.
Proof.
  intros H Hin.
  exact (proj2 (earlier_appendGroups_spec m _ _ H) k cs Hin).
Qed.

Lemma earlier_merge_holds_all_witness :
  EarlierArchive.merge None [(Some (lit "Todo"), [newCard])]
  = Some (HEADER ++ [LF] ++ lit "## Todo" ++ [LF; LF] ++ lit "- [ ] new"
          ++ [LF]) /\
  In (Some (lit "Todo"), [newCard]) [(Some (lit "Todo"), [newCard])] /\
  EarlierArchive.includes
    (HEADER ++ [LF] ++ lit "## Todo" ++ [LF; LF] ++ lit "- [ ] new" ++ [LF])
    (lit "## " ++ toStr (Some (lit "Todo")) ++ [LF]) = true /\
  forall card, In card [newCard] ->
    exists entry,
      cardLine card = Some entry /\
      EarlierArchive.includes
        (HEADER ++ [LF] ++ lit "## Todo" ++ [LF; LF] ++ lit "- [ ] new"
         ++ [LF])
        (entry ++ [LF]) = true.
Proof.
  assert (H : EarlierArchive.merge None [(Some (lit "Todo"), [newCard])]
              = Some (HEADER ++ [LF] ++ lit "## Todo" ++ [LF; LF]
                      ++ lit "- [ ] new" ++ [LF]))
    by (vm_compute; reflexivity).
  assert (H2 : In (Some (lit "Todo"), [newCard])
                 [(Some (lit "Todo"), [newCard])]) by (now left).
  split; [exact H|]. split; [exact H2|].
  exact (earlier_merge_holds_all None [(Some (lit "Todo"), [newCard])] _
           (Some (lit "Todo")) [newCard] H H2).
Defined.

(* ================================================================= *)
(** ** The two revisions of a run *)

Section PushCard.

Lemma pushCard_known (m1 m2 : Map (list CanvasNode)) (cs : list CanvasNode)
  (card : CanvasNode) (k : value) :
  ~ In k (keys m1) -> ~ In k (keys m2) ->
  pushCard k (m1 ++ (k, cs) :: m2) card = m1 ++ (k, cs ++ [card]) :: m2.
Proof.
  intros H1 H2. unfold pushCard.
  assert (Hhas : has (m1 ++ (k, cs) :: m2) k = true).
  { apply has_In. unfold keys. rewrite map_app. apply in_elt. }
  rewrite Hhas. simpl. rewrite get_middle by assumption.
  apply set_middle; assumption.
Qed.

Lemma pushCard_new (m : Map (list CanvasNode)) (card : CanvasNode)
  (k : value) :
  has m k = false -> pushCard k m card = m ++ [(k, [card])].
Proof.
  intros Hhas. unfold pushCard. rewrite Hhas. simpl.
  apply has_false in Hhas.
  rewrite set_new by (now apply has_false).
  rewrite get_middle by assumption.
  exact (set_middle m [] k [] ([] ++ [card]) Hhas (fun H => H)).
Qed.

Lemma NoDup_snoc {A : Type} (l : list A) (a : A) :
  NoDup l -> ~ In a l -> NoDup (l ++ [a]).
Proof.
  induction l as [|b l IH]; simpl; intros Hnd Hn.
  - constructor; [intros []|constructor].
  - inversion Hnd as [|? ? Hb Hl]; subst. constructor.
    + intros H. apply in_app_or in H as [H|[->|[]]]; [auto|].
      apply Hn. now left.
    + apply IH; [assumption|]. intros H. apply Hn. now right.
Qed.

(** Adding a card keeps the keys distinct and adds the card, and nothing
    else, to the lists. *)
Lemma pushCard_keeps (m : Map (list CanvasNode)) (k : value)
  (card : CanvasNode) (seen : list CanvasNode) :
  NoDup (keys m) -> Permutation (concat (map snd m)) seen ->
  NoDup (keys (pushCard k m card)) /\
  Permutation (concat (map snd (pushCard k m card))) (seen ++ [card]).
Proof.
  intros Hnd Hperm. destruct (has m k) eqn:Hhas.
  - destruct (has_split m k Hhas) as (m1 & cs & m2 & -> & Hm1).
    assert (Hm2 : ~ In k (keys m2)).
    { unfold keys in Hnd. rewrite map_app in Hnd. simpl in Hnd.
      apply NoDup_remove_2 in Hnd. intros H. apply Hnd.
      apply in_or_app. now right. }
    rewrite (pushCard_known m1 m2 cs card k Hm1 Hm2). split.
    + unfold keys in *. rewrite map_app in *. exact Hnd.
    + rewrite map_app, concat_app in *. simpl in *.
      rewrite <- app_assoc.
      rewrite (app_assoc (concat (map snd m1))).
      rewrite (app_assoc (concat (map snd m1) ++ cs)).
      rewrite (Permutation_app_comm _ (concat (map snd m2))).
      rewrite !app_assoc. apply Permutation_app_tail.
      rewrite <- app_assoc.
      rewrite (Permutation_app_comm (concat (map snd m2))).
      rewrite <- app_assoc. exact Hperm.
  - rewrite (pushCard_new m card k Hhas). split.
    + unfold keys in *. rewrite map_app. simpl.
      apply NoDup_snoc; [assumption|].
      apply has_false in Hhas. exact Hhas.
    + rewrite map_app, concat_app. simpl. rewrite ?app_nil_r.
      apply Permutation_app_tail. exact Hperm.
Qed.

Lemma earlier_resolve_keeps (groupNodes blueCards : list CanvasNode) :
  NoDup (keys (EarlierArchive.resolve blueCards groupNodes)) /\
  Permutation
    (concat (map snd (EarlierArchive.resolve blueCards groupNodes)))
    blueCards.
Proof.
  unfold EarlierArchive.resolve.
  induction blueCards as [|card seen IH] using rev_ind.
  - split; constructor.
  - rewrite fold_left_app. simpl.
    destruct IH as [Hnd Hperm].
    exact (pushCard_keeps _ (Earlier.findNodeGroup card groupNodes) card seen
             Hnd Hperm).
Qed.

(** The merge of either revision fails exactly when a blue card has no
    text. *)
Lemma merge_fails_iff (existing : option str)
  (blueCards groupNodes : list CanvasNode) :
  merge existing (resolve blueCards groupNodes) = None <->
  exists card, In card blueCards /\ text card = None.
Proof.
  pose proof (resolve_Grouped groupNodes blueCards) as G.
  pose proof (Grouped_NoDup _ _ _ G) as Hnd.
  destruct G as (_ & Hlists & _). split.
  - intros M. destruct (merge_total _ _ M) as (k & cs & card & Hin & Hc & Hn).
    destruct (Hlists k cs Hin) as [Hcs _].
    rewrite Hcs in Hc. apply filter_In in Hc as [Hc _].
    exists card. auto.
  - intros (card & Hc & Hn).
    destruct (resolve_entry blueCards groupNodes card Hc) as (cs & Hcs & Hi).
    exact (merge_fails_if existing _ _ cs card Hnd Hcs Hi Hn).
Qed.

Lemma earlier_merge_fails_iff (existing : option str)
  (blueCards groupNodes : list CanvasNode) :
  EarlierArchive.merge existing (EarlierArchive.resolve blueCards groupNodes)
  = None <->
  exists card, In card blueCards /\ text card = None.
Proof.
  unfold EarlierArchive.merge. rewrite earlier_appendGroups_fails.
  destruct (earlier_resolve_keeps groupNodes blueCards) as [_ Hperm].
  split; intros (card & Hc & Hn); exists card; (split; [|assumption]).
  - eapply Permutation_in; eassumption.
  - eapply Permutation_in; [apply Permutation_sym|]; eassumption.
Qed.

End PushCard.

(** X20. On the same canvas, parent folder and archive file, the two
    revisions of [archiveBlueCards] end alike: both stop for want of blue
    cards, or both fail, or both write, and then they write the same
    canvas and report the same number of cards.  Only the text of the
    archive can differ. *)
Theorem revisions_same_outcome (canvasData : CanvasData) (hasParent : bool)
  (existing : option str) :
  match archiveBlueCards canvasData hasParent existing,
        EarlierArchive.archiveBlueCards canvasData hasParent existing with
  | NoBlueCards, NoBlueCards => True
  | Failed, Failed => True
  | Archived _ updated count, Archived _ updated' count' =>
      updated = updated' /\ count = count'
  | _, _ => False
  end.
Proof.
  unfold archiveBlueCards, EarlierArchive.archiveBlueCards.
  destruct (length (filter isBlueCard (nodes canvasData)) =? 0)%nat;
    [exact I|].
  destruct hasParent; cbn [negb]; [|exact I].
  destruct (merge existing _) as [content|] eqn:M;
    destruct (EarlierArchive.merge existing _) as [content'|] eqn:M'.
  - split; reflexivity.
  - apply earlier_merge_fails_iff in M'.
    apply (proj2 (merge_fails_iff existing _
                    (filter isGroup (nodes canvasData)))) in M'.
    congruence.
  - apply merge_fails_iff in M.
    apply (proj2 (earlier_merge_fails_iff existing _
                    (filter isGroup (nodes canvasData)))) in M.
    congruence.
  - exact I.
Qed.

(** The archive texts of the two revisions do differ. *)
Example revisions_differ_in_text :
  archiveBlueCards cardInA true (Some twoSections)
  = Archived
      (twoSections ++ [LF] ++ [LF] ++ lit "## A" ++ [LF] ++ [LF]
       ++ lit "- [ ] new")
      (mkCanvasData [groupBox "A" 0 0 100 100] [] []) 1 /\
  EarlierArchive.archiveBlueCards cardInA true (Some twoSections)
  = Archived (twoSections ++ lit "- [ ] new" ++ [LF])
      (mkCanvasData [groupBox "A" 0 0 100 100] [] []) 1.
Proof. split; vm_compute; reflexivity. Qed.

(* ================================================================= *)
(** ** Runs that splice nothing *)

(** When the last heading that is followed by a line, if there is one, has
    a name that is no key of the map, every group of the map gets a new
    section at the end. *)
Lemma merge_without_splice (existing : option str)
  (m : Map (list CanvasNode)) :
  (forall A h B,
      split LF (initialContent existing) = A ++ h :: B ->
      isHeading h = true -> Forall (fun l => isHeading l = false) B ->
      B <> [] -> has m (Some (headingName h)) = false) ->
  merge existing m
  = (ls <- newSections m ;;
     Some (initialContent existing ++ joined ls)).
Proof.
  intros Hlast.
  destruct (merge_cases existing m)
    as (r & E & [H|(A & h & B & cards & ES & HB & Hh & HBs & Hget & _)]).
  - rewrite H. destruct (newSections m) as [ls|]; [|reflexivity].
    f_equal. rewrite join_app by discriminate.
    rewrite <- split_header, <- E, join_split. reflexivity.
  - exfalso.
    assert (Hs : split LF (initialContent existing)
                 = (headerLines ++ A) ++ h :: B).
    { rewrite E, split_header, ES. now rewrite <- app_assoc. }
    pose proof (Hlast _ _ _ Hs Hh HBs HB) as Hhas.
    rewrite (get_Some_has m _ cards Hget) in Hhas. discriminate.
Qed.

(** X21. Only the last heading of the document can receive entries: when
    the name of the last heading that is followed by a line is no key of
    the map (or there is no such heading), nothing is inserted into the
    document, and every group of the map, also one whose heading stands
    earlier in the document, gets a new section at the end, in the order
    of the map. *)
Theorem merge_only_last_heading (existing : option str)
  (m : Map (list CanvasNode)) :
  (forall A h B,
      split LF (initialContent existing) = A ++ h :: B ->
      isHeading h = true -> Forall (fun l => isHeading l = false) B ->
      B <> [] -> has m (Some (headingName h)) = false) ->
  merge existing m
  = (ls <- newSections m ;;
     Some (initialContent existing ++ joined ls)).
Proof. exact (merge_without_splice existing m). Qed.

Lemma last_of_twoSections (A B : list str) (h : str) :
  split LF (initialContent (Some twoSections)) = A ++ h :: B ->
  isHeading h = true -> Forall (fun l => isHeading l = false) B ->
  B <> [] -> h = lit "## B".
Proof.
  intros E Hh HB Hne.
  assert (EL : split LF (initialContent (Some twoSections))
               = headerLines ++ [lit "## A"; lit "- [ ] x"]
                 ++ lit "## B" :: [lit "- [ ] y"; []]) by reflexivity.
  rewrite EL in E. clear EL.
  assert (Hplain : forall l, In l (headerLines ++ [lit "- [ ] x"]) ->
                             isHeading l = false).
  { intros l Hl. vm_compute in Hl.
    repeat (destruct Hl as [<-|Hl]; [reflexivity|]). destruct Hl. }
  assert (HinB : forall l, In l B -> isHeading l = false)
    by (apply Forall_forall; exact HB).
  do 6 (destruct A as [|a A]; simpl in E; injection E as <- E;
        [exfalso; rewrite Hplain in Hh; [discriminate|simpl; auto 10]|]).
  destruct A as [|a A]; simpl in E; injection E as <- E.
  { exfalso. subst B.
    assert (isHeading (lit "## B") = false) as F
      by (apply HinB; simpl; auto).
    discriminate F. }
  destruct A as [|a A]; simpl in E; injection E as <- E;
    [exfalso; rewrite Hplain in Hh; [discriminate|simpl; auto 10]|].
  destruct A as [|a A]; simpl in E; injection E as <- E; [reflexivity|].
  destruct A as [|a A]; simpl in E; injection E as <- E;
    [discriminate Hh|].
  destruct A as [|a A]; simpl in E; injection E as <- E;
    [discriminate Hh|].
  destruct A; discriminate E.
Qed.

Lemma merge_only_last_heading_witness :
  (forall A h B,
      split LF (initialContent (Some twoSections)) = A ++ h :: B ->
      isHeading h = true -> Forall (fun l => isHeading l = false) B ->
      B <> [] ->
      has [(Some (lit "A"), [newCard])] (Some (headingName h)) = false) /\
  merge (Some twoSections) [(Some (lit "A"), [newCard])]
  = (ls <- newSections [(Some (lit "A"), [newCard])] ;;
     Some (initialContent (Some twoSections) ++ joined ls)).
Proof.
  assert (H : forall A h B,
             split LF (initialContent (Some twoSections)) = A ++ h :: B ->
             isHeading h = true ->
             Forall (fun l => isHeading l = false) B ->
             B <> [] ->
             has [(Some (lit "A"), [newCard])] (Some (headingName h))
             = false).
  { intros A h B E Hh HB Hne.
    rewrite (last_of_twoSections A B h E Hh HB Hne). reflexivity. }
  split; [exact H|].
  exact (merge_only_last_heading (Some twoSections)
           [(Some (lit "A"), [newCard])] H).
Defined.

(** X22. When the archive file does not exist yet, the merge gives the
    header followed by one new section for each group of the map, in the
    order of the map (and fails when the entries of a group cannot be
    rendered). *)
Theorem merge_new_file (m : Map (list CanvasNode)) :
  merge None m = (ls <- newSections m ;; Some (HEADER ++ joined ls)).
Proof.
  apply (merge_without_splice None m).
  intros A h B E Hh _ _. exfalso.
  apply (no_heading_in_new_file h); [|assumption].
  rewrite E. apply in_elt.
Qed.
